(** * Event registration and ticketing: the capacity ledger, the ticket
      state machine and the expiry reclaimer

    A shallow embedding of the database layer of the service (the file that
    declares [DB], [InitSchema], [CreateEvent], [RegisterForEvent],
    [ConfirmReservation] and [ReclaimExpiredSeats]), of its request
    handlers, of the RBAC and rate-limit middlewares with the routes of
    [main], of the concurrency test, and of the first version of the service
    (the [event-api] package).

    Modelling choices.
    - The SQLite store is a record of the two tables, each a list of rows in
      rowid order, plus the two AUTOINCREMENT counters.
    - Go [int]/[int64] and SQLite INTEGER values are [Z].  A capacity is an
      input that is stored as it is; the only arithmetic of the program moves
      a counter by one per ticket row, between zero and that capacity, or
      counts rows, so nothing it computes leaves the 64-bit range.
    - [datetime('now')] is a parameter [now : Z] of each operation, in
      seconds.  SQLite renders it as the fixed-width text
      [YYYY-MM-DD HH:MM:SS], whose text order is the order of the seconds, so
      comparing the numbers is comparing the stored texts;
      [datetime('now', '+5 minutes')] is [now + 300].
    - Every SQL statement is a function on the store that returns the new
      store and the number of rows affected, or fails when a constraint of
      the schema is violated (the statement then changes nothing).
    - A [sql.Tx] is a function from the store at [BeginTx] to an outcome:
      [Commit] with the new store, or [Rollback], which leaves the store as
      it was (the deferred [tx.Rollback()]).  The connection pool has a
      single connection ([SetMaxOpenConns(1)]), so transactions and
      statements of different callers are serialised: an operation is a
      function from store to store.
    - The store executes the statements it is given: [ReclaimExpiredSeats],
      like every other operation, is the function of the code on a store
      that answers each statement.  The loop of the reclaimer is the one
      place where the code carries on after a failed statement, so the loop
      is written over a fault assignment per candidate, [no_fault] being the
      store that answers.  A fault stands for a statement that returns an
      error, changes nothing and leaves the transaction open; a failure that
      ends the transaction or the connection is not modelled. *)

From Stdlib Require Import ZArith String List Bool Lia.
From Stdlib Require Import DecimalString Permutation Sorted.
Import ListNotations.
Local Open Scope string_scope.
Local Open Scope list_scope.
Local Open Scope Z_scope.

Set Implicit Arguments.

(** ** Schema *)

(** [status TEXT ... CHECK (status IN ('reserved','confirmed','cancelled'))] *)
Inductive Status : Type :=
| reserved
| confirmed
| cancelled.

Definition Status_eqb (a b : Status) : bool :=
  match a, b with
  | reserved, reserved | confirmed, confirmed | cancelled, cancelled => true
  | _, _ => false
  end.

(** A row of [events]; the Go struct [Event] has the same fields. *)
Record Event : Type := mkEvent {
  ID : Z;
  Name : string;
  TotalSpots : Z;
  AvailableSpots : Z
}.

(** A row of [tickets]. *)
Record Ticket : Type := mkTicket {
  tk_id : Z;
  tk_event_id : Z;
  tk_user_email : string;
  tk_idempotency_key : string;
  tk_status : Status;
  tk_created_at : Z;
  tk_expires_at : Z
}.

(** The store: both tables and the [sqlite_sequence] entry of each. *)
Record DB : Type := mkDB {
  events : list Event;
  tickets : list Ticket;
  events_seq : Z;
  tickets_seq : Z
}.

Definition empty_db : DB :=
  {| events := []; tickets := []; events_seq := 0; tickets_seq := 0 |}.

(** Errors of the database layer. *)
Inductive error : Type :=
| ErrSoldOut
| ErrAlreadyRegistered
| ErrConstraint
| ErrMsg (msg : string).

Inductive result (A : Type) : Type :=
| Ok (a : A)
| Err (e : error).
Arguments Ok {A} a.
Arguments Err {A} e.

(** ** SQL statements *)

(** [CHECK (available_spots >= 0)], the only CHECK on [events]. *)
Definition check_event (e : Event) : bool := 0 <=? AvailableSpots e.

Definition set_available (v : Z) (e : Event) : Event :=
  {| ID := ID e; Name := Name e; TotalSpots := TotalSpots e;
     AvailableSpots := v |}.

Definition set_status (s : Status) (t : Ticket) : Ticket :=
  {| tk_id := tk_id t; tk_event_id := tk_event_id t;
     tk_user_email := tk_user_email t;
     tk_idempotency_key := tk_idempotency_key t;
     tk_status := s; tk_created_at := tk_created_at t;
     tk_expires_at := tk_expires_at t |}.

Definition count_rows {A : Type} (p : A -> bool) (l : list A) : Z :=
  Z.of_nat (length (filter p l)).

Definition update_rows {A : Type} (where_ : A -> bool) (set : A -> A)
  (l : list A) : list A :=
  map (fun r => if where_ r then set r else r) l.

(** [UPDATE events SET ... WHERE ...]: the rows matching the WHERE clause are
    rewritten; the CHECK is evaluated on each rewritten row and the statement
    fails as a whole when one of them violates it. *)
Definition update_events (where_ : Event -> bool) (set : Event -> Event)
  (st : DB) : option (DB * Z) :=
  if forallb (fun r => negb (where_ r) || check_event (set r)) (events st)
  then Some ({| events := update_rows where_ set (events st);
                tickets := tickets st;
                events_seq := events_seq st; tickets_seq := tickets_seq st |},
             count_rows where_ (events st))
  else None.

(** [UPDATE tickets SET status = ... WHERE ...]: the new status is one of the
    three the CHECK allows, so the statement cannot fail on a constraint. *)
Definition update_tickets (where_ : Ticket -> bool) (set : Ticket -> Ticket)
  (st : DB) : DB * Z :=
  ({| events := events st; tickets := update_rows where_ set (tickets st);
      events_seq := events_seq st; tickets_seq := tickets_seq st |},
   count_rows where_ (tickets st)).

(** [INSERT INTO events (name, total_spots, available_spots) VALUES (?,?,?)] *)
Definition insert_event (name : string) (total available : Z) (st : DB)
  : option (DB * Z) :=
  let id := events_seq st + 1 in
  let row := {| ID := id; Name := name; TotalSpots := total;
                AvailableSpots := available |} in
  if check_event row
  then Some ({| events := events st ++ [row]; tickets := tickets st;
                events_seq := id; tickets_seq := tickets_seq st |}, id)
  else None.

(** The two uniqueness constraints of [tickets]:
    [idempotency_key TEXT UNIQUE] and [UNIQUE(event_id, user_email)]. *)
Definition same_key (key : string) (t : Ticket) : bool :=
  String.eqb (tk_idempotency_key t) key.

Definition same_holder (eventID : Z) (email : string) (t : Ticket) : bool :=
  (tk_event_id t =? eventID) && String.eqb (tk_user_email t) email.

Definition violates_unique (eventID : Z) (email key : string)
  (tks : list Ticket) : bool :=
  existsb (fun t => same_key key t || same_holder eventID email t) tks.

(** [INSERT INTO tickets (event_id, user_email, idempotency_key, status,
    expires_at) VALUES (?, ?, ?, 'reserved', datetime('now','+5 minutes'))].
    [created_at] takes its default, the current time.  The foreign key is
    declared but SQLite does not enforce it unless the pragma is switched on,
    which the program never does. *)
Definition insert_ticket (eventID : Z) (email key : string) (now : Z)
  (st : DB) : option (DB * Z) :=
  if violates_unique eventID email key (tickets st) then None
  else
    let id := tickets_seq st + 1 in
    let row := {| tk_id := id; tk_event_id := eventID;
                  tk_user_email := email; tk_idempotency_key := key;
                  tk_status := reserved; tk_created_at := now;
                  tk_expires_at := now + 300 |} in
    Some ({| events := events st; tickets := tickets st ++ [row];
             events_seq := events_seq st; tickets_seq := id |}, id).

(** ** Transactions *)

Inductive TxOutcome (A : Type) : Type :=
| Commit (a : A) (st' : DB)
| Rollback (e : error).
Arguments Commit {A} a st'.
Arguments Rollback {A} e.

Definition BeginTx {A : Type} (st : DB) (body : DB -> TxOutcome A)
  : result A * DB :=
  match body st with
  | Commit a st' => (Ok a, st')
  | Rollback e => (Err e, st)
  end.

(** ** Operations of the database layer *)

(** [CreateEvent]: a single autocommitted INSERT. *)
Definition CreateEvent (name : string) (totalSpots : Z) (st : DB)
  : result Event * DB :=
  match insert_event name totalSpots totalSpots st with
  | None => (Err ErrConstraint, st)
  | Some (st', id) =>
      (Ok {| ID := id; Name := name; TotalSpots := totalSpots;
             AvailableSpots := totalSpots |}, st')
  end.

(** [ListEvents] *)
Definition ListEvents (st : DB) : list Event := events st.

(** Step 1 of [RegisterForEvent]:
    [UPDATE events SET available_spots = available_spots - 1
     WHERE id = ? AND available_spots > 0]. *)
Definition decrement_where (eventID : Z) (e : Event) : bool :=
  (ID e =? eventID) && (0 <? AvailableSpots e).

Definition decrement_available (eventID : Z) (st : DB) : option (DB * Z) :=
  update_events (decrement_where eventID)
                (fun e => set_available (AvailableSpots e - 1) e) st.

Definition RegisterForEvent (eventID : Z) (email idempotencyKey : string)
  (now : Z) (st : DB) : result Z * DB :=
  BeginTx st (fun tx =>
    match decrement_available eventID tx with
    | None => Rollback (ErrMsg "failed to update event capacity")
    | Some (tx1, rowsAffected) =>
        if rowsAffected =? 0 then Rollback ErrSoldOut
        else
          match insert_ticket eventID email idempotencyKey now tx1 with
          | None => Rollback ErrAlreadyRegistered
          | Some (tx2, ticketID) => Commit ticketID tx2
          end
    end).

(** [ConfirmReservation]:
    [UPDATE tickets SET status = 'confirmed'
     WHERE id = ? AND user_email = ? AND status = 'reserved'
       AND expires_at > datetime('now')]. *)
Definition confirm_where (ticketID : Z) (userEmail : string) (now : Z)
  (t : Ticket) : bool :=
  (tk_id t =? ticketID) && String.eqb (tk_user_email t) userEmail
  && Status_eqb (tk_status t) reserved && (now <? tk_expires_at t).

Definition ErrConfirm : error :=
  ErrMsg "ticket is expired, already confirmed, or does not exist".

Definition ConfirmReservation (ticketID : Z) (userEmail : string) (now : Z)
  (st : DB) : result unit * DB :=
  let '(st', rows) :=
    update_tickets (confirm_where ticketID userEmail now)
                   (set_status confirmed) st in
  if rows =? 0 then (Err ErrConfirm, st') else (Ok tt, st').

(** [ReclaimExpiredSeats]. *)
Record reclaimed : Type := mkReclaimed {
  ticketID : Z;
  eventID : Z
}.

(** [SELECT id, event_id FROM tickets
     WHERE status = 'reserved' AND expires_at <= datetime('now')] *)
Definition lapsed (now : Z) (t : Ticket) : bool :=
  Status_eqb (tk_status t) reserved && (tk_expires_at t <=? now).

Definition candidate (t : Ticket) : reclaimed :=
  {| ticketID := tk_id t; eventID := tk_event_id t |}.

Definition select_expired (now : Z) (st : DB) : list reclaimed :=
  map candidate (filter (lapsed now) (tickets st)).

(** What the store does to the two statements issued for one candidate:
    it executes both, or one of them returns an error, changes nothing and
    leaves the transaction open. *)
Inductive fault : Type :=
| NoFault
| TicketUpdateFault
| EventUpdateFault.

(** [UPDATE tickets SET status = 'cancelled' WHERE id = ?] *)
Definition cancel_ticket (f : fault) (id : Z) (st : DB) : option DB :=
  match f with
  | TicketUpdateFault => None
  | _ => Some (fst (update_tickets (fun t => tk_id t =? id)
                                   (set_status cancelled) st))
  end.

(** [UPDATE events SET available_spots = available_spots + 1 WHERE id = ?] *)
Definition increment_available (f : fault) (id : Z) (st : DB) : option DB :=
  match f with
  | EventUpdateFault => None
  | _ =>
      match update_events (fun e => ID e =? id)
                          (fun e => set_available (AvailableSpots e + 1) e) st
      with
      | Some (st', _) => Some st'
      | None => None
      end
  end.

(** The [for _, e := range expired] loop; both error branches [continue]. *)
Fixpoint reclaim_loop (fl : Z -> fault) (expired : list reclaimed) (tx : DB)
  (reclaimedCount : Z) : DB * Z :=
  match expired with
  | [] => (tx, reclaimedCount)
  | e :: rest =>
      match cancel_ticket (fl (ticketID e)) (ticketID e) tx with
      | None => reclaim_loop fl rest tx reclaimedCount
      | Some tx1 =>
          match increment_available (fl (ticketID e)) (eventID e) tx1 with
          | None => reclaim_loop fl rest tx1 reclaimedCount
          | Some tx2 => reclaim_loop fl rest tx2 (reclaimedCount + 1)
          end
      end
  end.

(** [ReclaimExpiredSeats], over the faults of its loop: [fl] gives, for the
    candidate with a given ticket id, what the store does to its two
    statements.  A failed statement leaves the transaction open, so
    [tx.Commit()] commits what the other statements did. *)
Definition ReclaimExpiredSeatsWith (fl : Z -> fault) (now : Z) (st : DB)
  : result Z * DB :=
  BeginTx st (fun tx =>
    let expired := select_expired now tx in
    if (length expired =? 0)%nat then Commit 0 tx
    else
      let '(tx', reclaimedCount) := reclaim_loop fl expired tx 0 in
      Commit reclaimedCount tx').

Definition no_fault : Z -> fault := fun _ => NoFault.

(** The cycle on a store that answers every statement. *)
Definition ReclaimExpiredSeats (now : Z) (st : DB) : result Z * DB :=
  ReclaimExpiredSeatsWith no_fault now st.

(** ** The create-event handler *)

Record CreateEventRequest : Type := mkCreateEventRequest {
  req_Name : string;
  req_TotalSpots : Z
}.

Inductive response : Type :=
| MethodNotAllowed
| BadRequest (msg : string)
| InternalServerError
| Created (evt : Event).

(** [HandleCreateEvent]: [body] is [None] when the JSON body does not
    decode. *)
Definition HandleCreateEvent (method : string)
  (body : option CreateEventRequest) (st : DB) : response * DB :=
  if negb (String.eqb method "POST") then (MethodNotAllowed, st)
  else
    match body with
    | None => (BadRequest "Invalid JSON body", st)
    | Some req =>
        if String.eqb (req_Name req) "" || (req_TotalSpots req <=? 0)
        then (BadRequest "Invalid name or total_spots", st)
        else
          match CreateEvent (req_Name req) (req_TotalSpots req) st with
          | (Err _, st') => (InternalServerError, st')
          | (Ok evt, st') => (Created evt, st')
          end
    end.

(** ** Histories *)

Inductive op : Type :=
| OpCreateEvent (name : string) (totalSpots : Z)
| OpRegister (eventID : Z) (email idempotencyKey : string) (now : Z)
| OpConfirm (ticketID : Z) (userEmail : string) (now : Z)
| OpReclaim (now : Z).

Definition step (o : op) (st : DB) : DB :=
  match o with
  | OpCreateEvent name total => snd (CreateEvent name total st)
  | OpRegister e m k now => snd (RegisterForEvent e m k now st)
  | OpConfirm t m now => snd (ConfirmReservation t m now st)
  | OpReclaim now => snd (ReclaimExpiredSeats now st)
  end.

(** The store after a history, oldest operation first. *)
Definition run (ops : list op) (st : DB) : DB :=
  fold_left (fun s o => step o s) ops st.

Inductive reachable : DB -> Prop :=
| reach_empty : reachable empty_db
| reach_step : forall st o, reachable st -> reachable (step o st).

(** ** Observations *)

Definition is_active (s : Status) : bool :=
  match s with
  | reserved | confirmed => true
  | cancelled => false
  end.

(** Number of tickets of an event that are reserved or confirmed. *)
Definition active_of (eventID : Z) (t : Ticket) : bool :=
  (tk_event_id t =? eventID) && is_active (tk_status t).

Definition active_count (eventID : Z) (tks : list Ticket) : Z :=
  count_rows (active_of eventID) tks.

(** Number of reserved tickets of an event whose deadline has passed. *)
Definition lapsed_of (now eventID : Z) (t : Ticket) : bool :=
  (tk_event_id t =? eventID) && lapsed now t.

Definition lapsed_count (now eventID : Z) (tks : list Ticket) : Z :=
  count_rows (lapsed_of now eventID) tks.

Definition find_event (eventID : Z) (st : DB) : option Event :=
  find (fun e => ID e =? eventID) (events st).

Definition find_ticket (ticketID : Z) (st : DB) : option Ticket :=
  find (fun t => tk_id t =? ticketID) (tickets st).

Definition available (eventID : Z) (st : DB) : option Z :=
  option_map AvailableSpots (find_event eventID st).

Definition status_of (ticketID : Z) (st : DB) : option Status :=
  option_map tk_status (find_ticket ticketID st).

Definition total (eventID : Z) (st : DB) : option Z :=
  option_map TotalSpots (find_event eventID st).

(** Whether step 1 of a registration finds a unit to consume. *)
Definition has_spot (eventID : Z) (st : DB) : bool :=
  match available eventID st with
  | Some a => 0 <? a
  | None => false
  end.

(** The error of a registration that collides with an existing ticket: the
    capacity check runs before the INSERT. *)
Definition conflict_error (eventID : Z) (st : DB) : error :=
  if has_spot eventID st then ErrAlreadyRegistered else ErrSoldOut.

(** The body of a register request, as the handler decodes it. *)
Record RegisterRequest : Type := mkRegisterRequest {
  Email : string;
  IdempotencyKey : string
}.

(** A burst of registrations for one event in the order in which the store
    serialises them; each call comes with the time at which it runs. *)
Fixpoint register_all (eventID : Z) (calls : list (RegisterRequest * Z))
  (st : DB) : list (result Z) * DB :=
  match calls with
  | [] => ([], st)
  | (r, now) :: rest =>
      let '(res, st1) :=
        RegisterForEvent eventID (Email r) (IdempotencyKey r) now st in
      let '(ress, st2) := register_all eventID rest st1 in
      (res :: ress, st2)
  end.

Definition holder_of (t : Ticket) : Z * string :=
  (tk_event_id t, tk_user_email t).

(** The constraints of the schema together with the ledger equation. *)
Record Inv (st : DB) : Prop := mkInv {
  inv_event_ids : NoDup (map ID (events st));
  inv_event_seq : Forall (fun e => ID e <= events_seq st) (events st);
  inv_ticket_ids : NoDup (map tk_id (tickets st));
  inv_ticket_seq : Forall (fun t => tk_id t <= tickets_seq st) (tickets st);
  inv_keys : NoDup (map tk_idempotency_key (tickets st));
  inv_holders : NoDup (map holder_of (tickets st));
  inv_fk : Forall (fun t => In (tk_event_id t) (map ID (events st)))
                  (tickets st);
  inv_ledger :
    Forall (fun e => AvailableSpots e
                     = TotalSpots e - active_count (ID e) (tickets st))
           (events st);
  inv_check : Forall (fun e => 0 <= AvailableSpots e) (events st)
}.

(** ** Closed forms of the operations *)

(** The store a successful registration commits. *)
Definition registered (eventID : Z) (email key : string) (now : Z) (st : DB)
  : DB :=
  {| events := update_rows (decrement_where eventID)
                 (fun e => set_available (AvailableSpots e - 1) e)
                 (events st);
     tickets := tickets st ++
                [{| tk_id := tickets_seq st + 1; tk_event_id := eventID;
                    tk_user_email := email; tk_idempotency_key := key;
                    tk_status := reserved; tk_created_at := now;
                    tk_expires_at := now + 300 |}];
     events_seq := events_seq st;
     tickets_seq := tickets_seq st + 1 |}.

(** Whether the ticket statement, and both statements, of a candidate go
    through under a fault assignment. *)
Definition ticket_done (fl : Z -> fault) (c : reclaimed) : bool :=
  match fl (ticketID c) with
  | TicketUpdateFault => false
  | _ => true
  end.

Definition event_done (fl : Z -> fault) (c : reclaimed) : bool :=
  match fl (ticketID c) with
  | NoFault => true
  | _ => false
  end.

Definition ticket_hit (fl : Z -> fault) (cs : list reclaimed) (t : Ticket)
  : bool :=
  existsb (fun c => ticket_done fl c && (tk_id t =? ticketID c)) cs.

Definition event_hits (fl : Z -> fault) (cs : list reclaimed) (e : Event)
  : Z :=
  count_rows (fun c => event_done fl c && (ID e =? eventID c)) cs.

(** The store at the end of the reclaim loop over the candidates [cs]. *)
Definition reclaim_loop_result (fl : Z -> fault) (cs : list reclaimed)
  (st : DB) : DB :=
  {| events := map (fun e => set_available
                               (AvailableSpots e + event_hits fl cs e) e)
                   (events st);
     tickets := update_rows (ticket_hit fl cs) (set_status cancelled)
                            (tickets st);
     events_seq := events_seq st;
     tickets_seq := tickets_seq st |}.

(** The store a cycle commits when no statement fails, in terms of the
    tickets that are reserved and past their deadline when it starts. *)
Definition reclaim_result (now : Z) (st : DB) : DB :=
  {| events := map (fun e => set_available
                               (AvailableSpots e
                                + lapsed_count now (ID e) (tickets st)) e)
                   (events st);
     tickets := update_rows (lapsed now) (set_status cancelled) (tickets st);
     events_seq := events_seq st;
     tickets_seq := tickets_seq st |}.

(** The row [CreateEvent] inserts and returns, and the store afterwards. *)
Definition created_event (name : string) (totalSpots : Z) (st : DB) : Event :=
  {| ID := events_seq st + 1; Name := name; TotalSpots := totalSpots;
     AvailableSpots := totalSpots |}.

Definition created (name : string) (totalSpots : Z) (st : DB) : DB :=
  {| events := events st ++ [created_event name totalSpots st];
     tickets := tickets st;
     events_seq := events_seq st + 1;
     tickets_seq := tickets_seq st |}.

(** ** Sample stores and histories *)

(** One event with a single spot. *)
Definition gala_store : DB := run [OpCreateEvent "gala" 1] empty_db.

(** Ann reserves the only spot of the gala at time 0. *)
Definition ann_reserved : list op :=
  [OpCreateEvent "gala" 1; OpRegister 1 "ann@example.com" "k-ann" 0].

(** Ann lets the hold lapse, the reclaimer releases it, Bob takes the spot. *)
Definition bob_took_over : list op :=
  ann_reserved ++ [OpReclaim 300; OpRegister 1 "bob@example.com" "k-bob" 301].

(** A second event is created while Ann holds her spot at the gala. *)
Definition ball_created : list op := ann_reserved ++ [OpCreateEvent "ball" 1].

Definition ball : Event :=
  {| ID := 2; Name := "ball"; TotalSpots := 1; AvailableSpots := 1 |}.

Definition ann_ticket (s : Status) : Ticket :=
  {| tk_id := 1; tk_event_id := 1; tk_user_email := "ann@example.com";
     tk_idempotency_key := "k-ann"; tk_status := s; tk_created_at := 0;
     tk_expires_at := 300 |}.

Definition bob_call : RegisterRequest * Z :=
  ({| Email := "bob@example.com"; IdempotencyKey := "k-bob" |}, 5).

Definition cy_call : RegisterRequest * Z :=
  ({| Email := "cy@example.com"; IdempotencyKey := "k-cy" |}, 6).

(** Bob's call for the ball reuses the key of Ann's gala ticket. *)
Definition bob_reuses_key : RegisterRequest * Z :=
  ({| Email := "bob@example.com"; IdempotencyKey := "k-ann" |}, 5).

(** Ann confirms in time. *)
Definition ann_confirmed : list op :=
  ann_reserved ++ [OpConfirm 1 "ann@example.com" 10].

Definition gala_sold_out : Event :=
  {| ID := 1; Name := "gala"; TotalSpots := 1; AvailableSpots := 0 |}.

(** A row with more available than total spots. *)
Definition overfull_row : Event :=
  {| ID := 1; Name := "gala"; TotalSpots := 1; AvailableSpots := 2 |}.

(** ** The other handlers *)

(** What a handler hands to [SendJSON]. *)
Inductive payload : Type :=
| ErrorBody (msg : string)
| ErrorOf (e : error)
| EventBody (evt : Event)
| EventsBody (evts : list Event)
| TicketBody (message : string) (ticket_id : Z)
| MessageBody (message : string).

Record Response : Type := mkResponse {
  StatusCode : Z;
  Payload : payload
}.

Definition StatusOK : Z := 200.
Definition StatusCreated : Z := 201.
Definition StatusBadRequest : Z := 400.
Definition StatusUnauthorized : Z := 401.
Definition StatusForbidden : Z := 403.
Definition StatusMethodNotAllowed : Z := 405.
Definition StatusConflict : Z := 409.
Definition StatusTooManyRequests : Z := 429.
Definition StatusInternalServerError : Z := 500.

Definition SendJSON (status : Z) (data : payload) : Response :=
  {| StatusCode := status; Payload := data |}.

(** The response of [HandleCreateEvent] on the wire. *)
Definition wire (r : response) : Response :=
  match r with
  | MethodNotAllowed =>
      SendJSON StatusMethodNotAllowed (ErrorBody "Method Not Allowed")
  | BadRequest msg => SendJSON StatusBadRequest (ErrorBody msg)
  | InternalServerError =>
      SendJSON StatusInternalServerError (ErrorOf ErrConstraint)
  | Created evt => SendJSON StatusCreated (EventBody evt)
  end.

(** [HandleListEvents] *)
Definition HandleListEvents (method : string) (st : DB) : Response * DB :=
  if negb (String.eqb method "GET")
  then (SendJSON StatusMethodNotAllowed (ErrorBody "Method Not Allowed"), st)
  else (SendJSON StatusOK (EventsBody (ListEvents st)), st).

(** [HandleRegister].  [idStr] is the [{id}] segment of the path and
    [ParseInt] stands for [strconv.ParseInt(idStr, 10, 64)], [None] being its
    error; [body] is [None] when the JSON body does not decode. *)
Definition HandleRegister (ParseInt : string -> option Z)
  (method idStr : string) (body : option RegisterRequest) (now : Z) (st : DB)
  : Response * DB :=
  if negb (String.eqb method "POST")
  then (SendJSON StatusMethodNotAllowed (ErrorBody "Method Not Allowed"), st)
  else if String.eqb idStr ""
  then (SendJSON StatusBadRequest (ErrorBody "Missing event ID"), st)
  else
    match ParseInt idStr with
    | None =>
        (SendJSON StatusBadRequest (ErrorBody "Invalid event ID format"), st)
    | Some eventID =>
        match body with
        | None => (SendJSON StatusBadRequest (ErrorBody "Invalid JSON body"), st)
        | Some req =>
            if String.eqb (Email req) ""
               || String.eqb (IdempotencyKey req) ""
            then (SendJSON StatusBadRequest
                    (ErrorBody "Email and idempotency_key are required"), st)
            else
              match RegisterForEvent eventID (Email req) (IdempotencyKey req)
                      now st with
              | (Err ErrSoldOut, st') =>
                  (SendJSON StatusConflict (ErrorOf ErrSoldOut), st')
              | (Err ErrAlreadyRegistered, st') =>
                  (SendJSON StatusConflict (ErrorOf ErrAlreadyRegistered), st')
              | (Err _, st') =>
                  (SendJSON StatusInternalServerError
                     (ErrorBody "Internal server error during registration"),
                   st')
              | (Ok ticketID, st') =>
                  (SendJSON StatusCreated
                     (TicketBody
                        "Seat reserved! Please confirm within 5 minutes."
                        ticketID), st')
              end
        end
    end.

(** [HandleConfirm]; the body carries the e-mail alone. *)
Definition HandleConfirm (ParseInt : string -> option Z)
  (method idStr : string) (body : option string) (now : Z) (st : DB)
  : Response * DB :=
  if negb (String.eqb method "POST")
  then (SendJSON StatusMethodNotAllowed (ErrorBody "Method Not Allowed"), st)
  else if String.eqb idStr ""
  then (SendJSON StatusBadRequest (ErrorBody "Missing ticket ID"), st)
  else
    match ParseInt idStr with
    | None =>
        (SendJSON StatusBadRequest (ErrorBody "Invalid ticket ID format"), st)
    | Some ticketID =>
        match body with
        | None => (SendJSON StatusBadRequest (ErrorBody "Invalid JSON body"), st)
        | Some email =>
            if String.eqb email ""
            then (SendJSON StatusBadRequest
                    (ErrorBody "Email is required to confirm"), st)
            else
              match ConfirmReservation ticketID email now st with
              | (Err e, st') => (SendJSON StatusConflict (ErrorOf e), st')
              | (Ok _, st') =>
                  (SendJSON StatusOK
                     (MessageBody "Ticket successfully confirmed"), st')
              end
        end
    end.

(** ** Middlewares *)

(** [RBACMiddleware]: [role] is the value of the [X-Role] header, empty when
    the header is absent; [next] is the wrapped handler, over any state. *)
Definition RBACMiddleware {S : Type} (requiredRole : string)
  (next : S -> Response * S) (role : string) (s : S) : Response * S :=
  if String.eqb role ""
  then (SendJSON StatusUnauthorized
          (ErrorBody "Unauthorized: Missing X-Role header"), s)
  else if negb (String.eqb role requiredRole)
          && negb (String.eqb role "admin")
  then (SendJSON StatusForbidden
          (ErrorBody "Forbidden: Insufficient privileges"), s)
  else next s.

(** The state the closure of [RateLimitMiddleware] keeps: the [visitors]
    map, a Go map read with its zero default, and [lastReset].  Times are
    nanoseconds. *)
Record Limiter : Type := mkLimiter {
  visitors : list (string * Z);
  lastReset : Z
}.

Definition Second : Z := 1000000000.

Definition NewLimiter (clock : Z) : Limiter :=
  {| visitors := []; lastReset := clock |}.

(** [visitors[ip]] *)
Definition visits (ip : string) (m : list (string * Z)) : Z :=
  match find (fun kv => String.eqb (fst kv) ip) m with
  | Some kv => snd kv
  | None => 0
  end.

(** [visitors[ip]++] *)
Definition bump (ip : string) (m : list (string * Z)) : list (string * Z) :=
  (ip, visits ip m + 1)
    :: filter (fun kv => negb (String.eqb (fst kv) ip)) m.

(** The part of the middleware under the mutex: the window is reset when
    more than ten seconds have passed since [lastReset]; the request is
    admitted when its address has fewer than five visits, which are then
    incremented.  [clock] is [time.Now()], read once per request. *)
Definition window_reset (clock : Z) (l : Limiter) : Limiter :=
  if 10 * Second <? clock - lastReset l then NewLimiter clock else l.

Definition allow (ip : string) (clock : Z) (l : Limiter) : bool * Limiter :=
  let l1 := window_reset clock l in
  if 5 <=? visits ip (visitors l1) then (false, l1)
  else (true, {| visitors := bump ip (visitors l1);
                 lastReset := lastReset l1 |}).

Definition RateLimitMiddleware {S : Type} (next : S -> Response * S)
  (ip : string) (clock : Z) (l : Limiter) (s : S)
  : Response * (Limiter * S) :=
  match allow ip clock l with
  | (false, l') =>
      (SendJSON StatusTooManyRequests (ErrorBody "Too Many Requests"),
       (l', s))
  | (true, l') => let '(resp, s') := next s in (resp, (l', s'))
  end.

(** The limiter alone over a sequence of requests: who was admitted. *)
Fixpoint allow_all (reqs : list (string * Z)) (l : Limiter)
  : list bool * Limiter :=
  match reqs with
  | [] => ([], l)
  | (ip, clock) :: rest =>
      let '(ok, l1) := allow ip clock l in
      let '(oks, l2) := allow_all rest l1 in
      (ok :: oks, l2)
  end.

(** [responseWriter], the wrapper the logging middleware reads the status
    from. *)
Record responseWriter : Type := mkResponseWriter {
  rw_status : Z;
  rw_wroteHeader : bool
}.

Definition wrapResponseWriter : responseWriter :=
  {| rw_status := 0; rw_wroteHeader := false |}.

Definition WriteHeader (code : Z) (rw : responseWriter) : responseWriter :=
  if rw_wroteHeader rw then rw
  else {| rw_status := code; rw_wroteHeader := true |}.

(** ** The routes of [main] *)

(** A request the mux has matched to one of the four registered patterns.
    A pattern with method GET also matches HEAD requests. *)
Inductive Request : Type :=
| PostEvents (body : option CreateEventRequest)
| GetEvents (head : bool)
| PostRegister (idStr : string) (body : option RegisterRequest)
| PostConfirm (idStr : string) (body : option string).

(** The handler registered for the pattern, with its RBAC wrapper. *)
Definition route (ParseInt : string -> option Z) (req : Request)
  (role : string) (now : Z) (st : DB) : Response * DB :=
  match req with
  | PostEvents body =>
      RBACMiddleware "organizer"
        (fun s => let '(r, s') := HandleCreateEvent "POST" body s in
                  (wire r, s')) role st
  | GetEvents head => HandleListEvents (if head then "HEAD" else "GET") st
  | PostRegister idStr body =>
      RBACMiddleware "user" (HandleRegister ParseInt "POST" idStr body now)
        role st
  | PostConfirm idStr body =>
      RBACMiddleware "user" (HandleConfirm ParseInt "POST" idStr body now)
        role st
  end.

(** The server: the rate limiter around the mux ([LoggingMiddleware] and
    [RecoveryMiddleware] add a log line and catch panics; neither changes a
    response of these handlers). *)
Definition ServeHTTP (ParseInt : string -> option Z) (req : Request)
  (role ip : string) (clock now : Z) (l : Limiter) (st : DB)
  : Response * (Limiter * DB) :=
  RateLimitMiddleware (route ParseInt req role now) ip clock l st.

(** ** The concurrency test *)

(** [fmt.Sprintf("%d", n)] for the request numbers of the test. *)
Definition Sprintf_d (n : nat) : string :=
  DecimalString.NilZero.string_of_uint (Nat.to_uint n).

(** The request goroutine [requestID] of [TestOptimisticConcurrency] sends. *)
Definition gopher (requestID : nat) : RegisterRequest :=
  {| Email := "gopher" ++ Sprintf_d requestID ++ "@example.com";
     IdempotencyKey := "key_" ++ Sprintf_d requestID |}.

Definition is_ok (r : result Z) : bool :=
  match r with
  | Ok _ => true
  | Err _ => false
  end.

Definition is_sold_out (r : result Z) : bool :=
  match r with
  | Err ErrSoldOut => true
  | _ => false
  end.

(** The test on a fresh database, with the registrations serialised in the
    order [calls]; the result is whether none of its checks fails. *)
Definition TestOptimisticConcurrency (calls : list (RegisterRequest * Z))
  : bool :=
  match CreateEvent "The Big GopherCon" 5 empty_db with
  | (Err _, _) => false
  | (Ok event, st) =>
      let '(results, st') := register_all (ID event) calls st in
      let successCount := count_rows is_ok results in
      let soldOutCount := count_rows is_sold_out results in
      let errorCount :=
        count_rows (fun r => negb (is_ok r) && negb (is_sold_out r)) results in
      (successCount =? 5) && (soldOutCount =? 100 - 5) && (errorCount =? 0)
      && match ListEvents st' with
         | [e] => AvailableSpots e =? 0
         | _ => false
         end
      && (count_rows (fun t => tk_event_id t =? ID event) (tickets st') =? 5)
  end.

(** ** The first version of the service *)

(** The [event-api] package: [db.CreateEvent], [db.RegisterUser] and the
    register handler.  Its two tables carry no
    CHECK and no uniqueness constraint besides the primary keys. *)
Module EventApi.

Record Event : Type := mkEvent {
  ID : Z;
  Title : string;
  Description : string;
  Capacity : Z;
  AvailableSpots : Z;
  Date : Z
}.

Record Registration : Type := mkRegistration {
  RegID : Z;
  EventID : Z;
  UserName : string;
  UserEmail : string;
  RegisteredDate : Z
}.

Record Store : Type := mkStore {
  events : list Event;
  registrations : list Registration;
  events_seq : Z;
  registrations_seq : Z
}.

Definition empty : Store :=
  {| events := []; registrations := []; events_seq := 0;
     registrations_seq := 0 |}.

Definition ErrSoldOutOrMissing : error :=
  ErrMsg "event is sold out or does not exist".

(** [CreateEvent]: the id and the available spots of the argument are
    ignored; the row gets the next id and [available_spots = capacity]. *)
Definition CreateEvent (e : Event) (st : Store) : Z * Store :=
  let id := events_seq st + 1 in
  (id, {| events := events st ++
                    [{| ID := id; Title := Title e;
                        Description := Description e;
                        Capacity := Capacity e;
                        AvailableSpots := Capacity e; Date := Date e |}];
          registrations := registrations st;
          events_seq := id;
          registrations_seq := registrations_seq st |}).

Definition decrement_where (eventID : Z) (e : Event) : bool :=
  (ID e =? eventID) && (0 <? AvailableSpots e).

Definition decrement (e : Event) : Event :=
  {| ID := ID e; Title := Title e; Description := Description e;
     Capacity := Capacity e; AvailableSpots := AvailableSpots e - 1;
     Date := Date e |}.

(** [RegisterUser]: the conditional decrement, then the INSERT into
    [registrations], in one transaction; [registered_date] takes its
    default, the current time. *)
Definition RegisterUser (registration : Registration) (now : Z) (st : Store)
  : result unit * Store :=
  let rowsAffected :=
    count_rows (decrement_where (EventID registration)) (events st) in
  if rowsAffected =? 0 then (Err ErrSoldOutOrMissing, st)
  else
    let id := registrations_seq st + 1 in
    (Ok tt,
     {| events := update_rows (decrement_where (EventID registration))
                              decrement (events st);
        registrations := registrations st ++
                         [{| RegID := id; EventID := EventID registration;
                             UserName := UserName registration;
                             UserEmail := UserEmail registration;
                             RegisteredDate := now |}];
        events_seq := events_seq st;
        registrations_seq := id |}).

(** The register handler: [Atoi] stands for [strconv.Atoi] on the [{id}]
    segment, [body] is [None] when the JSON does not decode; the event id of
    the path replaces the one of the body. *)
Definition with_event (eventID : Z) (r : Registration) : Registration :=
  {| RegID := RegID r; EventID := eventID; UserName := UserName r;
     UserEmail := UserEmail r; RegisteredDate := RegisteredDate r |}.

Definition RegisterForEvent (Atoi : string -> option Z)
  (method eventIDStr : string) (body : option Registration) (now : Z)
  (st : Store) : Z * Store :=
  if negb (String.eqb method "POST") then (StatusMethodNotAllowed, st)
  else
    match Atoi eventIDStr with
    | None => (StatusBadRequest, st)
    | Some eventID =>
        match body with
        | None => (StatusBadRequest, st)
        | Some reg =>
            match RegisterUser (with_event eventID reg) now st with
            | (Err (ErrMsg msg), st') =>
                if String.eqb msg "event is sold out or does not exist"
                then (StatusConflict, st')
                else (StatusInternalServerError, st')
            | (Err _, st') => (StatusInternalServerError, st')
            | (Ok _, st') => (StatusCreated, st')
            end
        end
    end.

Inductive op : Type :=
| OpCreateEvent (e : Event)
| OpRegisterUser (r : Registration) (now : Z).

Definition step (o : op) (st : Store) : Store :=
  match o with
  | OpCreateEvent e => snd (CreateEvent e st)
  | OpRegisterUser r now => snd (RegisterUser r now st)
  end.

Definition run (ops : list op) (st : Store) : Store :=
  fold_left (fun s o => step o s) ops st.

Definition registered_count (eventID : Z) (st : Store) : Z :=
  count_rows (fun r => EventID r =? eventID) (registrations st).

Fixpoint register_users (calls : list (Registration * Z)) (st : Store)
  : list (result unit) * Store :=
  match calls with
  | [] => ([], st)
  | (r, now) :: rest =>
      let '(res, st1) := RegisterUser r now st in
      let '(ress, st2) := register_users rest st1 in
      (res :: ress, st2)
  end.

Definition available (eventID : Z) (st : Store) : option Z :=
  option_map AvailableSpots (find (fun e => ID e =? eventID) (events st)).

(** Primary key and referential integrity of the two tables, with the
    ledger equation of this version. *)
Record Inv (st : Store) : Prop := mkInv {
  inv_ids : NoDup (map ID (events st));
  inv_seq : Forall (fun e => ID e <= events_seq st) (events st);
  inv_fk : Forall (fun r => In (EventID r) (map ID (events st)))
                  (registrations st);
  inv_ledger :
    Forall (fun e => AvailableSpots e
                     = Capacity e - registered_count (ID e) st
                     /\ Z.min 0 (Capacity e) <= AvailableSpots e)
           (events st)
}.

End EventApi.

(** ** Further observations *)

(** What identifies a row, as opposed to what the operations move. *)
Definition event_identity (e : Event) : Z * string * Z :=
  (ID e, Name e, TotalSpots e).

Definition ticket_identity (t : Ticket)
  : Z * Z * string * string * Z * Z :=
  (tk_id t, tk_event_id t, tk_user_email t, tk_idempotency_key t,
   tk_created_at t, tk_expires_at t).

(** The ticket a registration inserts. *)
Definition new_ticket (id eventID : Z) (email key : string) (now : Z)
  : Ticket :=
  {| tk_id := id; tk_event_id := eventID; tk_user_email := email;
     tk_idempotency_key := key; tk_status := reserved;
     tk_created_at := now; tk_expires_at := now + 300 |}.

(** How many requests of a sequence come from an address, and how many of
    them the limiter admitted. *)
Definition requests_from (ip : string) (reqs : list (string * Z)) : Z :=
  count_rows (fun r => String.eqb (fst r) ip) reqs.

Definition admitted_from (ip : string) (reqs : list (string * Z))
  (oks : list bool) : Z :=
  count_rows (fun p => String.eqb (fst (fst p)) ip && snd p)
             (combine reqs oks).

(** The role a route of [main] asks for; the listing is public. *)
Definition required_role (req : Request) : option string :=
  match req with
  | PostEvents _ => Some "organizer"
  | GetEvents _ => None
  | PostRegister _ _ | PostConfirm _ _ => Some "user"
  end.

(** Ids handed out by an AUTOINCREMENT column whose counter is [seq]. *)
Definition ids_ordered (ids : list Z) (seq : Z) : Prop :=
  StronglySorted Z.lt ids /\ Forall (fun i => 0 < i <= seq) ids.

(** Whether the strings of a list are pairwise distinct. *)
Fixpoint distinct (l : list string) : bool :=
  match l with
  | [] => true
  | x :: rest => negb (existsb (String.eqb x) rest) && distinct rest
  end.

(** Sample data of the first version: a concert with two places. *)
Definition concert : EventApi.Event :=
  {| EventApi.ID := 0; EventApi.Title := "concert";
     EventApi.Description := ""; EventApi.Capacity := 2;
     EventApi.AvailableSpots := 0; EventApi.Date := 0 |}.

Definition dan : EventApi.Registration :=
  {| EventApi.RegID := 0; EventApi.EventID := 1;
     EventApi.UserName := "dan"; EventApi.UserEmail := "dan@example.com";
     EventApi.RegisteredDate := 0 |}.

Definition concert_created : EventApi.Store :=
  EventApi.run [EventApi.OpCreateEvent concert] EventApi.empty.

Definition concert_row (available : Z) : EventApi.Event :=
  {| EventApi.ID := 1; EventApi.Title := "concert";
     EventApi.Description := ""; EventApi.Capacity := 2;
     EventApi.AvailableSpots := available; EventApi.Date := 0 |}.

(** ** A hold among the others *)





Definition ann_request : RegisterRequest :=
  {| Email := "ann@example.com"; IdempotencyKey := "k-ann" |}.

(** * Properties *)

(** ** Rows and counts *)

Section Rows.
Context {A : Type}.
Implicit Types (p q : A -> bool) (l : list A).

Lemma count_rows_cons p a l :
  count_rows p (a :: l) = (if p a then 1 else 0) + count_rows p l.
Proof.
  unfold count_rows; simpl; destruct (p a); simpl length; lia.
Qed.

Lemma count_rows_nonneg p l : 0 <= count_rows p l.
Proof. unfold count_rows; lia. Qed.

Lemma count_rows_app p l1 l2 :
  count_rows p (l1 ++ l2) = count_rows p l1 + count_rows p l2.
Proof.
  unfold count_rows; rewrite filter_app, length_app; lia.
Qed.

Lemma count_rows_ext_in p q l :
  (forall a, In a l -> p a = q a) -> count_rows p l = count_rows q l.
Proof.
  induction l as [|a l IH]; intros H; [reflexivity|].
  rewrite !count_rows_cons, (H a) by (simpl; auto).
  rewrite IH; [reflexivity|].
  intros b Hb; apply H; simpl; auto.
Qed.

Lemma count_rows_none p l :
  (forall a, In a l -> p a = false) -> count_rows p l = 0.
Proof.
  induction l as [|a l IH]; intros H; [reflexivity|].
  rewrite count_rows_cons, (H a) by (simpl; auto).
  rewrite IH; [reflexivity|].
  intros b Hb; apply H; simpl; auto.
Qed.

Lemma count_rows_pos p a l : In a l -> p a = true -> 0 < count_rows p l.
Proof.
  induction l as [|b l IH]; simpl; [tauto|].
  intros [->|Hin] Hp; rewrite count_rows_cons.
  - rewrite Hp; pose proof (count_rows_nonneg p l); lia.
  - specialize (IH Hin Hp); destruct (p b); lia.
Qed.

Lemma count_rows_zero p a l :
  count_rows p l = 0 -> In a l -> p a = false.
Proof.
  intros H0 Hin; destruct (p a) eqn:Hp; [|reflexivity].
  pose proof (count_rows_pos p a l Hin Hp); lia.
Qed.

Lemma count_rows_split p q l :
  count_rows p l
  = count_rows (fun a => p a && q a) l
    + count_rows (fun a => p a && negb (q a)) l.
Proof.
  induction l as [|a l IH]; [reflexivity|].
  rewrite !count_rows_cons, IH; cbv beta.
  destruct (p a), (q a); cbn [andb negb]; lia.
Qed.

Lemma count_rows_filter p q l :
  count_rows p (filter q l) = count_rows (fun a => q a && p a) l.
Proof.
  induction l as [|a l IH]; [reflexivity|]; simpl.
  destruct (q a) eqn:Hq; rewrite ?count_rows_cons, IH, ?Hq; simpl;
    reflexivity.
Qed.

Lemma update_rows_none p (f : A -> A) l :
  (forall a, In a l -> p a = false) -> update_rows p f l = l.
Proof.
  intros H; unfold update_rows.
  rewrite <- (map_id l) at 2; apply map_ext_in.
  intros a Ha; rewrite (H a Ha); reflexivity.
Qed.

Lemma update_rows_twice p q (f : A -> A) l :
  (forall a, f (f a) = f a) ->
  (forall a, q (f a) = q a) ->
  update_rows q f (update_rows p f l)
  = update_rows (fun a => p a || q a) f l.
Proof.
  intros Hf Hq; unfold update_rows; rewrite map_map; apply map_ext.
  intros a; destruct (p a); simpl.
  - rewrite Hq; destruct (q a); auto.
  - reflexivity.
Qed.

Lemma update_rows_ext_in p q (f : A -> A) l :
  (forall a, In a l -> p a = q a) -> update_rows p f l = update_rows q f l.
Proof.
  intros H; apply map_ext_in; intros a Ha; rewrite (H a Ha); reflexivity.
Qed.

Lemma In_update_rows p (f : A -> A) l b :
  In b (update_rows p f l) ->
  exists a, In a l /\ b = (if p a then f a else a).
Proof.
  unfold update_rows; rewrite in_map_iff; intros (a & <- & Ha); eauto.
Qed.

Lemma count_rows_update p q (f : A -> A) (r : A -> bool) l :
  (forall a, In a l -> r (if p a then f a else a) = q a) ->
  count_rows r (update_rows p f l) = count_rows q l.
Proof.
  induction l as [|a l IH]; intros H; [reflexivity|].
  unfold update_rows in *; simpl map.
  rewrite !count_rows_cons, (H a) by (simpl; auto).
  rewrite IH; [reflexivity|].
  intros b Hb; apply H; simpl; auto.
Qed.

Lemma map_update_rows {B : Type} (g : A -> B) p (f : A -> A) l :
  (forall a, g (f a) = g a) -> map g (update_rows p f l) = map g l.
Proof.
  intros H; unfold update_rows; rewrite map_map; apply map_ext.
  intros a; destruct (p a); auto.
Qed.

Lemma find_update_rows (k : A -> bool) p (f : A -> A) l :
  (forall a, k (f a) = k a) ->
  find k (update_rows p f l)
  = option_map (fun a => if p a then f a else a) (find k l).
Proof.
  intros H; induction l as [|a l IH]; [reflexivity|]; simpl.
  destruct (p a) eqn:Hp; rewrite ?H; destruct (k a); simpl; auto;
    rewrite ?Hp; auto.
Qed.

Lemma NoDup_snoc (a : A) l : NoDup l -> ~ In a l -> NoDup (l ++ [a]).
Proof.
  induction l as [|b l IH]; simpl; intros Hnd Hni.
  - constructor; [simpl; tauto | constructor].
  - inversion Hnd; subst; constructor.
    + rewrite in_app_iff; simpl; intuition congruence.
    + apply IH; tauto.
Qed.

Lemma NoDup_map_inj {B : Type} (g : A -> B) l a b :
  NoDup (map g l) -> In a l -> In b l -> g a = g b -> a = b.
Proof.
  induction l as [|c l IH]; simpl; [tauto|].
  intros Hnd Ha Hb Hg; inversion Hnd as [|? ? Hni Hnd']; subst.
  destruct Ha as [->|Ha], Hb as [->|Hb]; auto.
  - exfalso; apply Hni; rewrite Hg; apply in_map; assumption.
  - exfalso; apply Hni; rewrite <- Hg; apply in_map; assumption.
Qed.

Lemma find_some_unique (k : A -> bool) {B : Type} (g : A -> B) l a :
  NoDup (map g l) ->
  (forall x y, k x = true -> k y = true -> g x = g y) ->
  In a l -> k a = true -> find k l = Some a.
Proof.
  intros Hnd Hk Ha Hka.
  destruct (find k l) as [b|] eqn:Hf.
  - apply find_some in Hf; destruct Hf as [Hb Hkb].
    f_equal; apply (NoDup_map_inj g l); auto.
  - pose proof (find_none _ _ Hf a Ha); congruence.
Qed.
End Rows.

(** ** Statements *)

Lemma Status_eqb_eq a b : Status_eqb a b = true <-> a = b.
Proof. destruct a, b; simpl; split; congruence. Qed.

Lemma set_available_same e : set_available (AvailableSpots e) e = e.
Proof. destruct e; reflexivity. Qed.

Lemma check_event_iff e : check_event e = true <-> 0 <= AvailableSpots e.
Proof. unfold check_event; apply Z.leb_le. Qed.

Lemma increment_passes_check id evs :
  Forall (fun e => 0 <= AvailableSpots e) evs ->
  forallb (fun r => negb (ID r =? id)
                    || check_event (set_available (AvailableSpots r + 1) r))
          evs = true.
Proof.
  intros H; apply forallb_forall; intros e He.
  rewrite Forall_forall in H; specialize (H e He).
  apply orb_true_iff; right; apply check_event_iff.
  cbn [set_available AvailableSpots]; lia.
Qed.

Lemma decrement_keeps_check eventID evs :
  Forall (fun e => 0 <= AvailableSpots e) evs ->
  Forall (fun e => 0 <= AvailableSpots e)
         (update_rows (decrement_where eventID)
            (fun e => set_available (AvailableSpots e - 1) e) evs).
Proof.
  rewrite !Forall_forall; intros H e' He'.
  apply In_update_rows in He'; destruct He' as (e & He & ->).
  unfold decrement_where; specialize (H e He).
  destruct (ID e =? eventID); cbn [andb]; auto.
  destruct (0 <? AvailableSpots e) eqn:Hpos; auto.
  apply Z.ltb_lt in Hpos; simpl; lia.
Qed.

Lemma decrement_available_eq eventID st :
  decrement_available eventID st
  = Some ({| events := update_rows (decrement_where eventID)
                         (fun e => set_available (AvailableSpots e - 1) e)
                         (events st);
             tickets := tickets st;
             events_seq := events_seq st;
             tickets_seq := tickets_seq st |},
          count_rows (decrement_where eventID) (events st)).
Proof.
  unfold decrement_available, update_events.
  replace (forallb _ (events st)) with true; [reflexivity|].
  symmetry; apply forallb_forall; intros e _.
  unfold decrement_where, check_event.
  destruct (ID e =? eventID); cbn [andb negb orb]; [|reflexivity].
  destruct (0 <? AvailableSpots e) eqn:Hpos; cbn [negb orb]; [|reflexivity].
  apply Z.ltb_lt in Hpos; apply Z.leb_le; cbn [set_available AvailableSpots].
  lia.
Qed.

(** [RegisterForEvent] in closed form. *)
Lemma RegisterForEvent_eq eventID email key now st :
  RegisterForEvent eventID email key now st
  = if count_rows (decrement_where eventID) (events st) =? 0
    then (Err ErrSoldOut, st)
    else if violates_unique eventID email key (tickets st)
         then (Err ErrAlreadyRegistered, st)
         else (Ok (tickets_seq st + 1), registered eventID email key now st).
Proof.
  unfold RegisterForEvent, BeginTx; rewrite decrement_available_eq.
  destruct (count_rows _ _ =? 0); [reflexivity|].
  unfold insert_ticket; cbn [tickets tickets_seq events events_seq].
  destruct (violates_unique _ _ _ _); reflexivity.
Qed.

Lemma RegisterForEvent_err eventID email key now st e st' :
  RegisterForEvent eventID email key now st = (Err e, st') -> st' = st.
Proof.
  unfold RegisterForEvent, BeginTx.
  destruct (decrement_available eventID st) as [[tx1 n]|];
    [|inversion 1; reflexivity].
  destruct (n =? 0); [inversion 1; reflexivity|].
  destruct (insert_ticket eventID email key now tx1) as [[tx2 id]|];
    inversion 1; reflexivity.
Qed.

Lemma find_event_In eventID st e :
  find_event eventID st = Some e -> In e (events st) /\ ID e = eventID.
Proof.
  unfold find_event; intros H; apply find_some in H.
  destruct H as [H1 H2]; apply Z.eqb_eq in H2; auto.
Qed.

Lemma In_find_event st e :
  NoDup (map ID (events st)) -> In e (events st) ->
  find_event (ID e) st = Some e.
Proof.
  intros Hnd He; unfold find_event.
  apply (find_some_unique _ ID); auto.
  - intros x y Hx Hy; apply Z.eqb_eq in Hx, Hy; congruence.
  - apply Z.eqb_refl.
Qed.

Lemma find_ticket_In ticketID st t :
  find_ticket ticketID st = Some t -> In t (tickets st) /\ tk_id t = ticketID.
Proof.
  unfold find_ticket; intros H; apply find_some in H.
  destruct H as [H1 H2]; apply Z.eqb_eq in H2; auto.
Qed.


(** Step 1 affects a row exactly when the event has a free unit. *)
Lemma decrement_count_has_spot eventID st :
  NoDup (map ID (events st)) ->
  (count_rows (decrement_where eventID) (events st) =? 0)
  = negb (has_spot eventID st).
Proof.
  intros Hnd; unfold has_spot, available.
  destruct (find_event eventID st) as [e|] eqn:Hf; cbn [option_map].
  - destruct (find_event_In _ _ Hf) as [He Hid].
    destruct (0 <? AvailableSpots e) eqn:Hpos; cbn [negb].
    + apply Z.eqb_neq.
      assert (0 < count_rows (decrement_where eventID) (events st)); [|lia].
      apply (count_rows_pos _ e); auto.
      unfold decrement_where; rewrite Hpos, Hid, Z.eqb_refl; reflexivity.
    + apply Z.eqb_eq, count_rows_none; intros e' He'.
      unfold decrement_where.
      destruct (ID e' =? eventID) eqn:Hid'; cbn [andb]; auto.
      apply Z.eqb_eq in Hid'.
      assert (e' = e) by (apply (NoDup_map_inj ID (events st)); congruence).
      subst e'; assumption.
  - apply Z.eqb_eq, count_rows_none; intros e' He'.
    unfold decrement_where, find_event in *.
    rewrite (find_none _ _ Hf e' He'); reflexivity.
Qed.

Lemma decrement_count_one eventID st e :
  NoDup (map ID (events st)) ->
  find_event eventID st = Some e -> 0 < AvailableSpots e ->
  count_rows (decrement_where eventID) (events st) = 1.
Proof.
  intros Hnd Hf Hpos; destruct (find_event_In _ _ Hf) as [He Hid].
  revert Hnd He; generalize (events st) as evs.
  induction evs as [|e' evs IH]; simpl; [tauto|].
  intros Hnd [->|He]; inversion Hnd as [|? ? Hni Hnd']; subst;
    rewrite count_rows_cons.
  - unfold decrement_where at 1.
    rewrite Z.eqb_refl; cbn [andb].
    apply Z.ltb_lt in Hpos; rewrite Hpos.
    rewrite count_rows_none; [reflexivity|].
    intros e2 He2; unfold decrement_where.
    destruct (ID e2 =? ID e) eqn:E; cbn [andb]; auto.
    apply Z.eqb_eq in E; exfalso; apply Hni; rewrite <- E.
    apply in_map; assumption.
  - rewrite (IH Hnd' He).
    unfold decrement_where.
    destruct (ID e' =? ID e) eqn:E; cbn [andb]; auto.
    apply Z.eqb_eq in E; exfalso; apply Hni; rewrite E.
    apply in_map; assumption.
Qed.

(** ** The reclaim loop *)

Lemma reclaim_loop_result_nil fl st : reclaim_loop_result fl [] st = st.
Proof.
  destruct st as [evs tks es ts]; unfold reclaim_loop_result.
  cbn [events tickets events_seq tickets_seq]; f_equal.
  - rewrite <- (map_id evs) at 2; apply map_ext; intros e.
    unfold event_hits, count_rows; cbn [filter length Z.of_nat].
    rewrite Z.add_0_r; apply set_available_same.
  - apply update_rows_none; reflexivity.
Qed.

Lemma increment_keeps_check id evs :
  Forall (fun e => 0 <= AvailableSpots e) evs ->
  Forall (fun e => 0 <= AvailableSpots e)
         (update_rows (fun e => ID e =? id)
            (fun e => set_available (AvailableSpots e + 1) e) evs).
Proof.
  rewrite !Forall_forall; intros H e' He'.
  apply In_update_rows in He'; destruct He' as (e & He & ->).
  specialize (H e He); destruct (ID e =? id); simpl; lia.
Qed.

Lemma DB_eq evs evs' tks tks' es ts :
  evs = evs' -> tks = tks' ->
  {| events := evs; tickets := tks; events_seq := es; tickets_seq := ts |}
  = {| events := evs'; tickets := tks'; events_seq := es; tickets_seq := ts |}.
Proof. intros -> ->; reflexivity. Qed.

Lemma event_hits_cons fl c cs e :
  event_hits fl (c :: cs) e
  = (if event_done fl c && (ID e =? eventID c) then 1 else 0)
    + event_hits fl cs e.
Proof. unfold event_hits; rewrite count_rows_cons; reflexivity. Qed.

Lemma ticket_hit_cons fl c cs t :
  ticket_hit fl (c :: cs) t
  = (ticket_done fl c && (tk_id t =? ticketID c)) || ticket_hit fl cs t.
Proof. reflexivity. Qed.

Lemma reclaim_loop_eq fl cs : forall st n,
  Forall (fun e => 0 <= AvailableSpots e) (events st) ->
  reclaim_loop fl cs st n
  = (reclaim_loop_result fl cs st, n + count_rows (event_done fl) cs).
Proof.
  induction cs as [|c cs IH]; intros st n Hchk.
  - cbn [reclaim_loop]; rewrite reclaim_loop_result_nil.
    apply f_equal2; [reflexivity|].
    unfold count_rows; cbn [filter length Z.of_nat]; lia.
  - cbn [reclaim_loop].
    unfold cancel_ticket, increment_available, update_events, update_tickets.
    rewrite count_rows_cons.
    assert (Htk : forall tks,
      update_rows (ticket_hit fl cs) (set_status cancelled)
        (update_rows (fun t => tk_id t =? ticketID c)
                     (set_status cancelled) tks)
      = update_rows (fun t => (tk_id t =? ticketID c) || ticket_hit fl cs t)
                    (set_status cancelled) tks)
      by (intros tks; apply update_rows_twice; reflexivity).
    assert (Hed := eq_refl (event_done fl c)).
    assert (Htd := eq_refl (ticket_done fl c)).
    unfold event_done at 2 in Hed; unfold ticket_done at 2 in Htd.
    destruct (fl (ticketID c)) eqn:Hfl; cbn [fst events tickets];
      rewrite Hed.
    + rewrite increment_passes_check by assumption.
      rewrite IH by (apply increment_keeps_check; assumption).
      apply f_equal2; [|lia].
      unfold reclaim_loop_result.
      cbn [events tickets events_seq tickets_seq]; apply DB_eq.
      * unfold update_rows; rewrite map_map; apply map_ext; intros e.
        rewrite event_hits_cons, Hed; cbn [andb].
        destruct (ID e =? eventID c); unfold set_available;
          cbn [ID Name TotalSpots AvailableSpots];
          change (event_hits fl cs _) with (event_hits fl cs e);
          apply f_equal; lia.
      * rewrite Htk; apply update_rows_ext_in; intros t _.
        rewrite ticket_hit_cons, Htd; reflexivity.
    + rewrite IH by assumption; apply f_equal2; [|lia].
      unfold reclaim_loop_result; apply DB_eq.
      * apply map_ext; intros e.
        rewrite event_hits_cons, Hed; reflexivity.
      * apply update_rows_ext_in; intros t _.
        rewrite ticket_hit_cons, Htd; reflexivity.
    + rewrite IH by assumption; apply f_equal2; [|lia].
      unfold reclaim_loop_result.
      cbn [events tickets events_seq tickets_seq]; apply DB_eq.
      * apply map_ext; intros e.
        rewrite event_hits_cons, Hed; reflexivity.
      * rewrite Htk; apply update_rows_ext_in; intros t _.
        rewrite ticket_hit_cons, Htd; reflexivity.
Qed.

Lemma count_rows_map {A B : Type} (p : B -> bool) (f : A -> B) (l : list A) :
  count_rows p (map f l) = count_rows (fun a => p (f a)) l.
Proof.
  induction l as [|a l IH]; [reflexivity|].
  cbn [map]; rewrite !count_rows_cons, IH; reflexivity.
Qed.

Lemma ReclaimExpiredSeatsWith_eq fl now st :
  Forall (fun e => 0 <= AvailableSpots e) (events st) ->
  ReclaimExpiredSeatsWith fl now st
  = (Ok (count_rows (event_done fl) (select_expired now st)),
     reclaim_loop_result fl (select_expired now st) st).
Proof.
  intros Hchk; unfold ReclaimExpiredSeatsWith, BeginTx.
  destruct (select_expired now st) as [|c cs] eqn:Hsel.
  - cbn [length Nat.eqb]; rewrite reclaim_loop_result_nil; reflexivity.
  - cbn [length Nat.eqb]; rewrite reclaim_loop_eq by assumption.
    rewrite Z.add_0_l; reflexivity.
Qed.

Lemma event_hits_select now st e :
  event_hits no_fault (select_expired now st) e
  = lapsed_count now (ID e) (tickets st).
Proof.
  unfold event_hits, select_expired, lapsed_count.
  rewrite count_rows_map, count_rows_filter.
  apply count_rows_ext_in; intros t _.
  unfold lapsed_of, event_done, no_fault, candidate.
  cbn [eventID ticketID andb].
  rewrite (Z.eqb_sym (ID e)); apply andb_comm.
Qed.

Lemma ticket_done_candidate fl t t' :
  tk_id t = tk_id t' ->
  ticket_done fl (candidate t) = ticket_done fl (candidate t').
Proof.
  unfold ticket_done, candidate; cbn [ticketID]; intros ->; reflexivity.
Qed.

Lemma ticket_hit_select_with fl now st t :
  NoDup (map tk_id (tickets st)) -> In t (tickets st) ->
  ticket_hit fl (select_expired now st) t
  = lapsed now t && ticket_done fl (candidate t).
Proof.
  intros Hnd Ht; unfold ticket_hit, select_expired.
  destruct (lapsed now t && ticket_done fl (candidate t)) eqn:Hl.
  - apply andb_true_iff in Hl; destruct Hl as [Hl Hd].
    apply existsb_exists; exists (candidate t); split.
    + apply in_map_iff; exists t; split; auto.
      apply filter_In; auto.
    + rewrite Hd; cbn [candidate ticketID]; rewrite Z.eqb_refl; reflexivity.
  - destruct (existsb _ _) eqn:Hex; [|reflexivity].
    apply existsb_exists in Hex; destruct Hex as (c & Hc & Hid).
    apply in_map_iff in Hc; destruct Hc as (t' & <- & Ht').
    apply filter_In in Ht'; destruct Ht' as [Ht' Hl'].
    apply andb_true_iff in Hid; destruct Hid as [Hd Hid].
    cbn [candidate ticketID] in Hid; apply Z.eqb_eq in Hid.
    assert (t = t') by (apply (NoDup_map_inj tk_id (tickets st)); auto).
    subst t'; rewrite Hl', Hd in Hl; discriminate.
Qed.

Lemma ticket_hit_select now st t :
  NoDup (map tk_id (tickets st)) -> In t (tickets st) ->
  ticket_hit no_fault (select_expired now st) t = lapsed now t.
Proof.
  intros Hnd Ht; rewrite ticket_hit_select_with by assumption.
  apply andb_true_r.
Qed.

Lemma reclaim_loop_result_select now st :
  NoDup (map tk_id (tickets st)) ->
  reclaim_loop_result no_fault (select_expired now st) st
  = reclaim_result now st.
Proof.
  intros Hnd; unfold reclaim_loop_result, reclaim_result; apply DB_eq.
  - apply map_ext; intros e; rewrite event_hits_select; reflexivity.
  - apply update_rows_ext_in; intros t Ht.
    apply ticket_hit_select; assumption.
Qed.

(** [ReclaimExpiredSeats] in closed form. *)
Lemma ReclaimExpiredSeats_eq now st :
  NoDup (map tk_id (tickets st)) ->
  Forall (fun e => 0 <= AvailableSpots e) (events st) ->
  ReclaimExpiredSeats now st
  = (Ok (count_rows (lapsed now) (tickets st)), reclaim_result now st).
Proof.
  intros Hnd Hchk; unfold ReclaimExpiredSeats.
  rewrite ReclaimExpiredSeatsWith_eq, reclaim_loop_result_select
    by assumption.
  apply f_equal2; [|reflexivity]; apply f_equal.
  unfold select_expired; rewrite count_rows_map, count_rows_filter.
  apply count_rows_ext_in; intros t _.
  unfold event_done, no_fault; apply andb_true_r.
Qed.

(** ** The invariant *)

Lemma active_count_snoc eventID tks t :
  active_count eventID (tks ++ [t])
  = active_count eventID tks + (if active_of eventID t then 1 else 0).
Proof.
  unfold active_count; rewrite count_rows_app, count_rows_cons.
  change (count_rows (active_of eventID) []) with 0; lia.
Qed.

Lemma Inv_empty : Inv empty_db.
Proof.
  constructor; cbn [events tickets empty_db map]; constructor.
Qed.

Lemma Inv_CreateEvent name total st :
  Inv st -> Inv (snd (CreateEvent name total st)).
Proof.
  intros [H1 H2 H3 H4 H5 H6 H7 H8 H9].
  unfold CreateEvent, insert_event, check_event.
  cbn [AvailableSpots].
  destruct (0 <=? total) eqn:Htot; cbn [snd]; [|constructor; assumption].
  apply Z.leb_le in Htot.
  assert (Hfresh : ~ In (events_seq st + 1) (map ID (events st))).
  { rewrite in_map_iff; intros (e & He1 & He2).
    rewrite Forall_forall in H2; specialize (H2 e He2); lia. }
  constructor; cbn [events tickets events_seq tickets_seq]; auto.
  - rewrite map_app; apply NoDup_snoc; assumption.
  - apply Forall_app; split.
    + eapply Forall_impl; [|exact H2]; cbv beta; intros; lia.
    + repeat constructor; cbn [ID]; lia.
  - eapply Forall_impl; [|exact H7]; cbv beta; intros t Ht.
    rewrite map_app; apply in_or_app; auto.
  - apply Forall_app; split; [assumption|].
    repeat constructor; cbn [ID TotalSpots AvailableSpots].
    unfold active_count; rewrite count_rows_none; [lia|].
    intros t Ht; unfold active_of.
    destruct (tk_event_id t =? events_seq st + 1) eqn:E; [|reflexivity].
    apply Z.eqb_eq in E; rewrite Forall_forall in H7.
    specialize (H7 t Ht); rewrite E in H7; contradiction.
  - apply Forall_app; split; [assumption|].
    repeat constructor; assumption.
Qed.

Lemma Inv_ConfirmReservation ticketID email now st :
  Inv st -> Inv (snd (ConfirmReservation ticketID email now st)).
Proof.
  intros [H1 H2 H3 H4 H5 H6 H7 H8 H9].
  unfold ConfirmReservation, update_tickets.
  assert (Hact : forall eventID,
    active_count eventID
      (update_rows (confirm_where ticketID email now) (set_status confirmed)
                   (tickets st))
    = active_count eventID (tickets st)).
  { intros eventID; apply count_rows_update; intros t _.
    destruct (confirm_where ticketID email now t) eqn:Hw; [|reflexivity].
    unfold confirm_where in Hw; rewrite !andb_true_iff in Hw.
    destruct Hw as [[[_ _] Hs] _]; apply Status_eqb_eq in Hs.
    unfold active_of; cbn [set_status tk_event_id tk_status].
    rewrite Hs; reflexivity. }
  destruct (count_rows _ _ =? 0); cbn [snd];
    constructor; cbn [events tickets events_seq tickets_seq]; auto;
    try (rewrite map_update_rows by reflexivity; assumption);
    try (rewrite Forall_forall in *; intros t Ht;
         apply In_update_rows in Ht; destruct Ht as (t0 & Ht0 & ->);
         destruct (confirm_where ticketID email now t0);
         cbn [set_status tk_id tk_event_id]; auto);
    try (eapply Forall_impl; [|exact H8]; cbv beta; intros e He;
         rewrite Hact; assumption).
Qed.

Lemma count_rows_exists {A : Type} (p : A -> bool) (l : list A) :
  count_rows p l <> 0 -> exists a, In a l /\ p a = true.
Proof.
  induction l as [|a l IH]; [intros H; exfalso; apply H; reflexivity|].
  rewrite count_rows_cons; destruct (p a) eqn:Hp.
  - intros _; exists a; simpl; auto.
  - intros H; destruct IH as (b & Hb & Hpb); [lia|].
    exists b; simpl; auto.
Qed.

Lemma violates_unique_false eventID email key tks :
  violates_unique eventID email key tks = false ->
  ~ In key (map tk_idempotency_key tks)
  /\ ~ In (eventID, email) (map holder_of tks).
Proof.
  unfold violates_unique; intros H.
  assert (Hall : forall t, In t tks ->
            same_key key t || same_holder eventID email t = false).
  { intros t Ht; destruct (same_key key t || same_holder eventID email t)
      eqn:E; [|reflexivity].
    assert (existsb (fun t => same_key key t || same_holder eventID email t)
              tks = true) by (apply existsb_exists; eauto).
    congruence. }
  split; rewrite in_map_iff; intros (t & Heq & Ht);
    specialize (Hall t Ht); apply orb_false_iff in Hall;
    destruct Hall as [Hk Hh].
  - unfold same_key in Hk; rewrite Heq, String.eqb_refl in Hk; discriminate.
  - unfold same_holder, holder_of in *; inversion Heq; subst.
    rewrite Z.eqb_refl, String.eqb_refl in Hh; discriminate.
Qed.

Lemma violates_unique_true eventID email key tks :
  violates_unique eventID email key tks = true <->
  exists t, In t tks /\
            (tk_idempotency_key t = key
             \/ (tk_event_id t = eventID /\ tk_user_email t = email)).
Proof.
  unfold violates_unique; rewrite existsb_exists.
  split; intros (t & Ht & H); exists t; split; auto.
  - apply orb_true_iff in H; destruct H as [H|H].
    + left; apply String.eqb_eq; exact H.
    + right; unfold same_holder in H; apply andb_true_iff in H.
      destruct H as [H1 H2]; apply Z.eqb_eq in H1.
      apply String.eqb_eq in H2; auto.
  - apply orb_true_iff; destruct H as [H|[H1 H2]].
    + left; apply String.eqb_eq; exact H.
    + right; unfold same_holder; apply andb_true_iff.
      rewrite Z.eqb_eq, String.eqb_eq; auto.
Qed.

Lemma Inv_registered eventID email key now st :
  Inv st ->
  count_rows (decrement_where eventID) (events st) <> 0 ->
  violates_unique eventID email key (tickets st) = false ->
  Inv (registered eventID email key now st).
Proof.
  intros [H1 H2 H3 H4 H5 H6 H7 H8 H9] Hcnt Hviol.
  destruct (violates_unique_false _ _ _ _ Hviol) as [Hkey Hholder].
  destruct (count_rows_exists _ _ Hcnt) as (e0 & He0 & Hw0).
  unfold decrement_where in Hw0; apply andb_true_iff in Hw0.
  destruct Hw0 as [Hid0 Hpos0]; apply Z.eqb_eq in Hid0.
  apply Z.ltb_lt in Hpos0.
  unfold registered; constructor;
    cbn [events tickets events_seq tickets_seq].
  - rewrite map_update_rows by reflexivity; assumption.
  - rewrite Forall_forall in *; intros e' He'.
    apply In_update_rows in He'; destruct He' as (e & He & ->).
    specialize (H2 e He); destruct (decrement_where eventID e); auto.
  - rewrite map_app; apply NoDup_snoc; [assumption|]; cbn [map tk_id].
    rewrite in_map_iff; intros (t & Ht1 & Ht2).
    rewrite Forall_forall in H4; specialize (H4 t Ht2); lia.
  - apply Forall_app; split.
    + eapply Forall_impl; [|exact H4]; cbv beta; intros; lia.
    + repeat constructor; cbn [tk_id]; lia.
  - rewrite map_app; apply NoDup_snoc; assumption.
  - rewrite map_app; apply NoDup_snoc; assumption.
  - rewrite map_update_rows by reflexivity.
    apply Forall_app; split; [assumption|].
    repeat constructor; cbn [tk_event_id].
    rewrite <- Hid0; apply in_map; assumption.
  - rewrite Forall_forall in *; intros e' He'.
    apply In_update_rows in He'; destruct He' as (e & He & ->).
    specialize (H8 e He); rewrite active_count_snoc.
    unfold active_of at 1; cbn [tk_event_id tk_status is_active].
    rewrite andb_true_r.
    destruct (decrement_where eventID e) eqn:Hw;
      unfold decrement_where in Hw.
    + apply andb_true_iff in Hw; destruct Hw as [Hid _].
      cbn [set_available ID TotalSpots AvailableSpots].
      apply Z.eqb_eq in Hid; rewrite <- Hid, Z.eqb_refl; lia.
    + destruct (ID e =? eventID) eqn:Hid; cbn [andb] in Hw.
      * apply Z.eqb_eq in Hid.
        assert (e = e0)
          by (apply (NoDup_map_inj ID (events st)); congruence).
        subst e0; apply Z.ltb_ge in Hw; lia.
      * rewrite Z.eqb_sym, Hid; lia.
  - apply decrement_keeps_check; assumption.
Qed.

Lemma Inv_RegisterForEvent eventID email key now st :
  Inv st -> Inv (snd (RegisterForEvent eventID email key now st)).
Proof.
  intros HI; rewrite RegisterForEvent_eq.
  destruct (count_rows _ _ =? 0) eqn:Hcnt; [exact HI|].
  destruct (violates_unique _ _ _ _) eqn:Hviol; [exact HI|].
  apply Z.eqb_neq in Hcnt; apply Inv_registered; assumption.
Qed.

Lemma lapsed_reserved now t : lapsed now t = true -> tk_status t = reserved.
Proof.
  unfold lapsed; intros H; apply andb_true_iff in H.
  apply Status_eqb_eq; tauto.
Qed.

Lemma active_count_reclaim now eventID tks :
  active_count eventID (update_rows (lapsed now) (set_status cancelled) tks)
  = active_count eventID tks - lapsed_count now eventID tks.
Proof.
  unfold active_count, lapsed_count.
  rewrite (count_rows_split (active_of eventID) (lapsed now) tks).
  rewrite (count_rows_update (lapsed now)
             (fun t => active_of eventID t && negb (lapsed now t))).
  - rewrite (count_rows_ext_in (lapsed_of now eventID)
               (fun t => active_of eventID t && lapsed now t)); [lia|].
    intros t _; unfold lapsed_of, active_of.
    destruct (lapsed now t) eqn:Hl; rewrite ?andb_false_r; auto.
    rewrite (lapsed_reserved _ _ Hl); cbn [is_active].
    rewrite !andb_true_r; reflexivity.
  - intros t _; destruct (lapsed now t); cbn [negb].
    + unfold active_of; cbn [set_status tk_status tk_event_id is_active].
      rewrite !andb_false_r; reflexivity.
    + rewrite andb_true_r; reflexivity.
Qed.

Lemma Inv_reclaim_result now st : Inv st -> Inv (reclaim_result now st).
Proof.
  intros [H1 H2 H3 H4 H5 H6 H7 H8 H9].
  assert (Hids : forall f : Event -> Z,
            map ID (map (fun e => set_available (f e) e) (events st))
            = map ID (events st))
    by (intros f; rewrite map_map; apply map_ext; reflexivity).
  unfold reclaim_result; constructor;
    cbn [events tickets events_seq tickets_seq];
    try (rewrite map_update_rows by reflexivity; assumption).
  - rewrite Hids; assumption.
  - rewrite Forall_forall in *; intros e' He'.
    apply in_map_iff in He'; destruct He' as (e & <- & He).
    apply (H2 e He).
  - rewrite Forall_forall in *; intros t' Ht'.
    apply In_update_rows in Ht'; destruct Ht' as (t & Ht & ->).
    specialize (H4 t Ht); destruct (lapsed now t); auto.
  - rewrite Hids; rewrite Forall_forall in *; intros t' Ht'.
    apply In_update_rows in Ht'; destruct Ht' as (t & Ht & ->).
    specialize (H7 t Ht); destruct (lapsed now t); auto.
  - rewrite Forall_forall in *; intros e' He'.
    apply in_map_iff in He'; destruct He' as (e & <- & He).
    cbn [set_available ID TotalSpots AvailableSpots].
    rewrite active_count_reclaim, (H8 e He); lia.
  - rewrite Forall_forall in *; intros e' He'.
    apply in_map_iff in He'; destruct He' as (e & <- & He).
    cbn [set_available AvailableSpots]; specialize (H9 e He).
    pose proof (count_rows_nonneg (lapsed_of now (ID e)) (tickets st)).
    unfold lapsed_count; lia.
Qed.

Lemma Inv_ReclaimExpiredSeats now st :
  Inv st -> Inv (snd (ReclaimExpiredSeats now st)).
Proof.
  intros HI.
  rewrite ReclaimExpiredSeats_eq
    by (apply (inv_ticket_ids HI) || apply (inv_check HI)).
  apply Inv_reclaim_result; assumption.
Qed.

Lemma Inv_step o st : Inv st -> Inv (step o st).
Proof.
  destruct o; cbn [step];
    auto using Inv_CreateEvent, Inv_RegisterForEvent,
               Inv_ConfirmReservation, Inv_ReclaimExpiredSeats.
Qed.

Lemma Inv_run ops : forall st, Inv st -> Inv (run ops st).
Proof.
  induction ops as [|o ops IH]; intros st HI; [exact HI|].
  cbn [run fold_left]; apply IH, Inv_step, HI.
Qed.

Lemma Inv_history ops : Inv (run ops empty_db).
Proof. apply Inv_run, Inv_empty. Qed.

Lemma run_snoc ops o st : run (ops ++ [o]) st = step o (run ops st).
Proof. unfold run; rewrite fold_left_app; reflexivity. Qed.

Lemma reachable_run ops : reachable (run ops empty_db).
Proof.
  induction ops as [|o ops IH] using rev_ind; [constructor|].
  rewrite run_snoc; constructor; assumption.
Qed.

Lemma reachable_history st :
  reachable st <-> exists ops, st = run ops empty_db.
Proof.
  split.
  - induction 1 as [|st o _ (ops & ->)].
    + exists []; reflexivity.
    + exists (ops ++ [o]); rewrite run_snoc; reflexivity.
  - intros (ops & ->); apply reachable_run.
Qed.

(** ** Registration, case by case *)

Lemma RegisterForEvent_cases eventID email key now st :
  Inv st ->
  RegisterForEvent eventID email key now st
  = if has_spot eventID st
    then if violates_unique eventID email key (tickets st)
         then (Err ErrAlreadyRegistered, st)
         else (Ok (tickets_seq st + 1), registered eventID email key now st)
    else (Err ErrSoldOut, st).
Proof.
  intros HI; rewrite RegisterForEvent_eq.
  rewrite decrement_count_has_spot by (apply (inv_event_ids HI)).
  destruct (has_spot eventID st); reflexivity.
Qed.

Lemma register_conflict eventID email key now st :
  Inv st ->
  violates_unique eventID email key (tickets st) = true ->
  RegisterForEvent eventID email key now st
  = (Err (conflict_error eventID st), st).
Proof.
  intros HI Hv; rewrite RegisterForEvent_cases, Hv by assumption.
  unfold conflict_error; destruct (has_spot eventID st); reflexivity.
Qed.

Lemma register_ok_inv eventID email key now st id st1 :
  Inv st ->
  RegisterForEvent eventID email key now st = (Ok id, st1) ->
  has_spot eventID st = true
  /\ violates_unique eventID email key (tickets st) = false
  /\ id = tickets_seq st + 1
  /\ st1 = registered eventID email key now st.
Proof.
  intros HI; rewrite RegisterForEvent_cases by assumption.
  destruct (has_spot eventID st); [|discriminate].
  destruct (violates_unique _ _ _ _); [discriminate|].
  inversion 1; auto.
Qed.

Lemma has_spot_available eventID st :
  has_spot eventID st = true ->
  exists a, available eventID st = Some a /\ 0 < a.
Proof.
  unfold has_spot; destruct (available eventID st) as [a|]; [|discriminate].
  intros H; apply Z.ltb_lt in H; eauto.
Qed.

Lemma available_has_spot eventID st a :
  available eventID st = Some a -> has_spot eventID st = (0 <? a).
Proof. unfold has_spot; intros ->; reflexivity. Qed.

Lemma available_after_decrement eventID st a :
  available eventID st = Some a -> 0 < a ->
  option_map AvailableSpots
    (find (fun e => ID e =? eventID)
          (update_rows (decrement_where eventID)
             (fun e => set_available (AvailableSpots e - 1) e) (events st)))
  = Some (a - 1).
Proof.
  unfold available; intros Ha Hpos.
  rewrite find_update_rows by reflexivity.
  destruct (find_event eventID st) as [e|] eqn:Hf; [|discriminate].
  unfold find_event in Hf; rewrite Hf; cbn [option_map] in *.
  destruct (find_event_In _ _ Hf) as [_ Hid].
  inversion Ha; subst a; unfold decrement_where.
  rewrite Hid, Z.eqb_refl; apply Z.ltb_lt in Hpos; rewrite Hpos.
  reflexivity.
Qed.

Lemma available_registered eventID email key now st a :
  available eventID st = Some a -> 0 < a ->
  available eventID (registered eventID email key now st) = Some (a - 1).
Proof.
  intros Ha Hpos; unfold available, find_event, registered; cbn [events].
  apply available_after_decrement; assumption.
Qed.

Lemma violates_unique_app eventID email key tks1 tks2 :
  violates_unique eventID email key (tks1 ++ tks2)
  = violates_unique eventID email key tks1
    || violates_unique eventID email key tks2.
Proof. apply existsb_app. Qed.

Lemma registered_violates eventID email key now st :
  violates_unique eventID email key
    (tickets (registered eventID email key now st)) = true.
Proof.
  unfold registered; cbn [tickets]; rewrite violates_unique_app.
  apply orb_true_iff; right; unfold violates_unique, same_key.
  cbn [existsb tk_idempotency_key]; rewrite String.eqb_refl; reflexivity.
Qed.

Lemma has_spot_count eventID st :
  NoDup (map ID (events st)) ->
  has_spot eventID st = true ->
  count_rows (decrement_where eventID) (events st) <> 0.
Proof.
  intros Hnd H; pose proof (decrement_count_has_spot eventID st Hnd) as Hd.
  rewrite H in Hd; apply Z.eqb_neq; exact Hd.
Qed.

Lemma total_registered eventID email key now st :
  total eventID (registered eventID email key now st) = total eventID st.
Proof.
  unfold total, find_event, registered; cbn [events].
  rewrite find_update_rows by reflexivity.
  destruct (find (fun e => ID e =? eventID) (events st)) as [e|];
    [|reflexivity].
  cbn [option_map]; destruct (decrement_where eventID e); reflexivity.
Qed.

Lemma CreateEvent_eq name totalSpots st :
  CreateEvent name totalSpots st
  = (if 0 <=? totalSpots
     then (Ok (created_event name totalSpots st), created name totalSpots st)
     else (Err ErrConstraint, st)).
Proof.
  unfold CreateEvent, insert_event, check_event; cbn [AvailableSpots].
  destruct (0 <=? totalSpots); reflexivity.
Qed.

(** ** A burst of registrations *)

Lemma register_all_burst eventID calls : forall st a,
  Inv st ->
  available eventID st = Some a ->
  NoDup (map (fun c => Email (fst c)) calls) ->
  NoDup (map (fun c => IdempotencyKey (fst c)) calls) ->
  (forall c, In c calls ->
     violates_unique eventID (Email (fst c)) (IdempotencyKey (fst c))
       (tickets st) = false) ->
  exists ids st',
    register_all eventID calls st
    = (map Ok ids
       ++ repeat (Err ErrSoldOut) (length calls - length ids), st')
    /\ length ids = Nat.min (Z.to_nat a) (length calls)
    /\ Inv st'
    /\ available eventID st' = Some (a - Z.of_nat (length ids))
    /\ total eventID st' = total eventID st.
Proof.
  induction calls as [|[r now] calls IH]; intros st a HI Ha Hm Hk Hfree.
  - exists [], st; cbn [register_all length map repeat app Nat.sub].
    rewrite Nat.min_0_r; cbn [Z.of_nat]; rewrite Z.sub_0_r; auto 6.
  - cbn [map fst] in Hm, Hk.
    inversion Hm as [|? ? Hm1 Hm2]; inversion Hk as [|? ? Hk1 Hk2]; subst.
    cbn [register_all].
    rewrite RegisterForEvent_cases, (available_has_spot _ _ Ha)
      by assumption.
    assert (Ha0 : 0 <= a).
    { unfold available in Ha.
      destruct (find_event eventID st) as [e|] eqn:Hf; [|discriminate].
      destruct (find_event_In _ _ Hf) as [He _].
      pose proof (inv_check HI) as HC; rewrite Forall_forall in HC.
      specialize (HC e He); inversion Ha; subst; assumption. }
    destruct (0 <? a) eqn:Hpos.
    + apply Z.ltb_lt in Hpos.
      pose proof (Hfree (r, now) (or_introl eq_refl)) as Hfr.
      cbn [fst] in Hfr; rewrite Hfr.
      destruct (IH (registered eventID (Email r) (IdempotencyKey r) now st)
                   (a - 1)) as (ids & st' & Hrun & Hlen & HI' & Hav & Htot).
      * apply Inv_registered; [assumption| |assumption].
        apply has_spot_count; [apply (inv_event_ids HI)|].
        rewrite (available_has_spot _ _ Ha); apply Z.ltb_lt; assumption.
      * apply available_registered; assumption.
      * assumption.
      * assumption.
      * intros c Hc; unfold registered; cbn [tickets].
        rewrite violates_unique_app, (Hfree c) by (right; assumption).
        unfold violates_unique, same_key, same_holder.
        cbn [existsb tk_idempotency_key tk_event_id tk_user_email orb].
        rewrite orb_false_r; apply orb_false_iff; split.
        -- apply String.eqb_neq; intros E; apply Hk1.
           rewrite E; apply (in_map (fun c => IdempotencyKey (fst c)));
             assumption.
        -- apply andb_false_iff; right.
           apply String.eqb_neq; intros E; apply Hm1.
           rewrite E; apply (in_map (fun c => Email (fst c))); assumption.
      * rewrite Hrun; exists (tickets_seq st + 1 :: ids), st'.
        cbn [map app length Nat.sub].
        split; [reflexivity|]; split; [|split; [assumption|split]].
        -- rewrite Hlen; lia.
        -- rewrite Hav; apply f_equal; lia.
        -- rewrite Htot; apply total_registered.
    + apply Z.ltb_ge in Hpos; assert (a = 0) by lia; subst a.
      destruct (IH st 0 HI Ha Hm2 Hk2)
        as (ids & st' & Hrun & Hlen & HI' & Hav & Htot).
      * intros c Hc; apply Hfree; right; assumption.
      * cbn [Z.to_nat Nat.min] in Hlen.
        destruct ids; [|discriminate].
        rewrite Hrun; exists [], st'.
        cbn [map app length Nat.sub repeat] in *.
        rewrite Nat.sub_0_r; auto 6.
Qed.

(** ** After a reclaim cycle *)



Lemma status_reclaim_result now id st t :
  find_ticket id st = Some t ->
  status_of id (reclaim_result now st)
  = Some (if lapsed now t then cancelled else tk_status t).
Proof.
  unfold status_of, find_ticket, reclaim_result; cbn [tickets]; intros Hf.
  rewrite find_update_rows, Hf by reflexivity.
  cbn [option_map]; destruct (lapsed now t); reflexivity.
Qed.


Lemma ConfirmReservation_none id email now st :
  (forall t, In t (tickets st) -> confirm_where id email now t = false) ->
  ConfirmReservation id email now st = (Err ErrConfirm, st).
Proof.
  intros H; unfold ConfirmReservation, update_tickets.
  rewrite count_rows_none, update_rows_none by assumption.
  destruct st; reflexivity.
Qed.



Lemma lapsed_count_none now eventID tks :
  (forall t, In t tks -> lapsed now t = false) ->
  lapsed_count now eventID tks = 0.
Proof.
  intros H; apply count_rows_none; intros t Ht.
  unfold lapsed_of; rewrite (H t Ht); apply andb_false_r.
Qed.

Lemma reclaim_result_fixed now st :
  (forall t, In t (tickets st) -> lapsed now t = false) ->
  reclaim_result now st = st.
Proof.
  intros H; destruct st as [evs tks es ts]; unfold reclaim_result.
  cbn [events tickets events_seq tickets_seq] in *; apply DB_eq.
  - rewrite <- (map_id evs) at 2; apply map_ext; intros e.
    rewrite lapsed_count_none, Z.add_0_r by assumption.
    apply set_available_same.
  - apply update_rows_none; assumption.
Qed.

Lemma reclaim_result_settled now st t :
  In t (tickets (reclaim_result now st)) -> lapsed now t = false.
Proof.
  unfold reclaim_result; cbn [tickets]; intros Ht.
  apply In_update_rows in Ht; destruct Ht as (t0 & _ & ->).
  destruct (lapsed now t0) eqn:Hl; [reflexivity|exact Hl].
Qed.

Lemma lapsed_count_snoc now eventID tks t :
  lapsed_count now eventID (tks ++ [t])
  = lapsed_count now eventID tks + (if lapsed_of now eventID t then 1 else 0).
Proof.
  unfold lapsed_count; rewrite count_rows_app, count_rows_cons.
  change (count_rows (lapsed_of now eventID) []) with 0; lia.
Qed.

(** * The claims *)

(** ** Ledger invariant *)



(** ** Capacity bounds *)

(** C8, as the code has it.  In every reachable store each event has
    [0 <= available_spots <= total_spots].  The store's CHECK is the lower
    bound alone, and the decrement of a registration only rewrites rows with
    [available_spots > 0]; the upper bound is no constraint of the store, it
    follows from the ledger equation. *)
Theorem C8_capacity_bounds ops e :
  In e (events (run ops empty_db)) ->
  0 <= AvailableSpots e <= TotalSpots e
  /\ (forall r, check_event r = true <-> 0 <= AvailableSpots r)
  /\ (forall eventID r,
        decrement_where eventID r = true -> 0 < AvailableSpots r).
Proof.
  intros He; pose proof (Inv_history ops) as HI.
  pose proof (inv_ledger HI) as HL; pose proof (inv_check HI) as HC.
  rewrite Forall_forall in HL, HC; specialize (HL e He).
  specialize (HC e He); split; [|split].
  - pose proof (count_rows_nonneg (active_of (ID e))
                  (tickets (run ops empty_db))).
    unfold active_count in HL; lia.
  - exact check_event_iff.
  - intros eventID r H; unfold decrement_where in H.
    apply andb_true_iff in H; apply Z.ltb_lt; tauto.
Qed.

Lemma C8_capacity_bounds_witness :
  In gala_sold_out (events (run bob_took_over empty_db))
  /\ 0 <= AvailableSpots gala_sold_out <= TotalSpots gala_sold_out.
Proof.
  split; [vm_compute; auto|].
  apply (@C8_capacity_bounds bob_took_over gala_sold_out).
  vm_compute; auto.
Defined.

(** C8 as stated fails: the store accepts a row whose available spots exceed
    its total spots, and the increment statement of the reclaimer, run on a
    store whose only event is full, pushes the counter above the total. *)
Lemma C8_store_has_no_ceiling :
  check_event overfull_row = true
  /\ ~ AvailableSpots overfull_row <= TotalSpots overfull_row
  /\ increment_available NoFault 1 gala_store
     = Some {| events := [overfull_row]; tickets := [];
               events_seq := 1; tickets_seq := 0 |}.
Proof.
  split; [reflexivity|]; split; [|reflexivity].
  cbn [overfull_row AvailableSpots TotalSpots]; lia.
Qed.

(** ** Confirm *)

(** C6. [ConfirmReservation] succeeds exactly when a ticket with that id
    exists whose holder is the given one, whose status is reserved and whose
    deadline is still ahead; otherwise it returns its one error and leaves
    the store as it was.  In either case the events table, hence every
    available capacity, is unchanged. *)
Theorem C6_confirm_guard ticketID email now st :
  (fst (ConfirmReservation ticketID email now st) = Ok tt
   <-> exists t, In t (tickets st) /\ tk_id t = ticketID
                 /\ tk_user_email t = email /\ tk_status t = reserved
                 /\ now < tk_expires_at t)
  /\ (fst (ConfirmReservation ticketID email now st) = Ok tt
      \/ ConfirmReservation ticketID email now st = (Err ErrConfirm, st))
  /\ events (snd (ConfirmReservation ticketID email now st)) = events st.
Proof.
  assert (Hw : forall t, confirm_where ticketID email now t = true <->
                 tk_id t = ticketID /\ tk_user_email t = email
                 /\ tk_status t = reserved /\ now < tk_expires_at t).
  { intros t; unfold confirm_where.
    rewrite !andb_true_iff, Z.eqb_eq, String.eqb_eq, Status_eqb_eq,
      Z.ltb_lt; tauto. }
  unfold ConfirmReservation, update_tickets.
  destruct (count_rows (confirm_where ticketID email now) (tickets st) =? 0)
    eqn:Hc; cbn [fst snd events]; repeat split; auto.
  - discriminate.
  - intros (t & Ht & Hg); apply Z.eqb_eq in Hc.
    apply Hw in Hg; rewrite (count_rows_zero _ t _ Hc Ht) in Hg.
    discriminate.
  - right; apply f_equal2; [reflexivity|].
    destruct st as [evs tks es ts]; cbn [events tickets events_seq
      tickets_seq] in *; apply DB_eq; [reflexivity|].
    apply update_rows_none; intros t Ht; apply Z.eqb_eq in Hc.
    apply (count_rows_zero _ t _ Hc Ht).
  - intros _; apply Z.eqb_neq in Hc.
    destruct (count_rows_exists _ _ Hc) as (t & Ht & Hg).
    exists t; split; [assumption|]; apply Hw; assumption.
Qed.

(** ** CreateEvent *)

(** C9, as the code has it.  The database operation [CreateEvent] fails,
    creating nothing, exactly when the capacity is negative (the CHECK on
    [available_spots]); for a capacity of zero or more it inserts and
    returns the event.  The request handler is what turns away a capacity of
    zero or less, and an empty name, before the database is reached. *)
Theorem C9_create_event name total st :
  CreateEvent name total st
  = (if 0 <=? total
     then (Ok (created_event name total st), created name total st)
     else (Err ErrConstraint, st))
  /\ HandleCreateEvent "POST"
       (Some {| req_Name := name; req_TotalSpots := total |}) st
     = (if String.eqb name "" || (total <=? 0)
        then (BadRequest "Invalid name or total_spots", st)
        else (Created (created_event name total st), created name total st)).
Proof.
  pose proof (CreateEvent_eq name total st) as HC.
  split; [exact HC|].
  unfold HandleCreateEvent; cbn [String.eqb Ascii.eqb Bool.eqb negb andb
    req_Name req_TotalSpots].
  destruct (String.eqb name ""); cbn [orb]; [reflexivity|].
  destruct (total <=? 0) eqn:Hle; [reflexivity|].
  rewrite HC; apply Z.leb_gt in Hle.
  destruct (0 <=? total) eqn:Hge; [reflexivity|].
  apply Z.leb_gt in Hge; lia.
Qed.

(** C9 as stated fails on both sides: [CreateEvent] with capacity 0 creates
    an event, and a positive capacity with an empty name is turned away by
    the handler. *)
Lemma C9_zero_capacity_is_created :
  CreateEvent "gala" 0 empty_db
  = (Ok {| ID := 1; Name := "gala"; TotalSpots := 0; AvailableSpots := 0 |},
     {| events := [{| ID := 1; Name := "gala"; TotalSpots := 0;
                      AvailableSpots := 0 |}];
        tickets := []; events_seq := 1; tickets_seq := 0 |})
  /\ HandleCreateEvent "POST"
       (Some {| req_Name := ""; req_TotalSpots := 5 |}) empty_db
     = (BadRequest "Invalid name or total_spots", empty_db).
Proof. split; reflexivity. Qed.

(** ** Registration *)

(** C2, as the code has it.  An event is created with capacity [C] in any
    reachable store; [N >= C] registrations for it follow, with pairwise
    distinct holders and pairwise distinct idempotency keys, none of the keys
    already carried by a ticket of the store (the key is unique across all
    events).  Then the first [C] calls the store serialises return a ticket
    id, the other [N - C] return [ErrSoldOut], the event ends with no
    available spot and with exactly [C] reserved-or-confirmed tickets. *)
Theorem C2_no_overbooking ops name C ev st calls :
  CreateEvent name C (run ops empty_db) = (Ok ev, st) ->
  NoDup (map (fun c => Email (fst c)) calls) ->
  NoDup (map (fun c => IdempotencyKey (fst c)) calls) ->
  (forall c t, In c calls -> In t (tickets (run ops empty_db)) ->
     tk_idempotency_key t <> IdempotencyKey (fst c)) ->
  C <= Z.of_nat (length calls) ->
  exists ids st',
    register_all (ID ev) calls st
    = (map Ok ids ++ repeat (Err ErrSoldOut) (length calls - length ids),
       st')
    /\ Z.of_nat (length ids) = C
    /\ available (ID ev) st' = Some 0
    /\ active_count (ID ev) (tickets st') = C.
Proof.
  intros Hcre Hm Hk Hfresh HN.
  pose proof (Inv_history ops) as HI0.
  pose proof (Inv_CreateEvent name C HI0) as HI.
  rewrite CreateEvent_eq in Hcre, HI.
  destruct (0 <=? C) eqn:HC; [|discriminate].
  apply Z.leb_le in HC; inversion Hcre; subst ev st; clear Hcre.
  cbn [snd] in HI; set (st0 := run ops empty_db) in *.
  assert (Hin : In (created_event name C st0) (events (created name C st0)))
    by (unfold created; cbn [events]; apply in_or_app; right; left;
        reflexivity).
  pose proof (In_find_event _ _ (inv_event_ids HI) Hin) as Hfind.
  assert (Hav : available (ID (created_event name C st0))
                  (created name C st0) = Some C)
    by (unfold available; rewrite Hfind; reflexivity).
  assert (Htot : total (ID (created_event name C st0))
                   (created name C st0) = Some C)
    by (unfold total; rewrite Hfind; reflexivity).
  destruct (register_all_burst (ID (created_event name C st0)) calls
              HI Hav Hm Hk)
    as (ids & st' & Hrun & Hlen & HI' & Hav' & Htot').
  { intros c Hc; unfold created; cbn [tickets ID created_event].
    destruct (violates_unique _ _ _ _) eqn:Hv; [|reflexivity].
    apply violates_unique_true in Hv.
    destruct Hv as (t & Ht & [Hkey|[Hev _]]).
    - exfalso; apply (Hfresh c t Hc Ht Hkey).
    - pose proof (inv_fk HI0) as Hfk; pose proof (inv_event_seq HI0) as Hs.
      rewrite Forall_forall in Hfk, Hs; specialize (Hfk t Ht).
      apply in_map_iff in Hfk; destruct Hfk as (e & He1 & He2).
      specialize (Hs e He2); fold st0 in Hs; lia. }
  assert (Hl : Z.of_nat (length ids) = C) by lia.
  exists ids, st'; split; [exact Hrun|]; split; [exact Hl|].
  rewrite Hav', Hl, Z.sub_diag; split; [reflexivity|].
  rewrite Hl, Z.sub_diag in Hav'; rewrite Htot in Htot'.
  unfold available in Hav'; unfold total in Htot'.
  destruct (find_event _ st') as [e'|] eqn:Hf'; [|discriminate].
  destruct (find_event_In _ _ Hf') as [He' Hid'].
  pose proof (inv_ledger HI') as HL; rewrite Forall_forall in HL.
  specialize (HL e' He'); cbn [option_map] in Hav', Htot'.
  injection Hav' as Hav'; injection Htot' as Htot'.
  rewrite <- Hid'; lia.
Qed.

Lemma C2_no_overbooking_witness :
  CreateEvent "ball" 1 (run ann_reserved empty_db)
  = (Ok ball, run ball_created empty_db)
  /\ exists ids st',
       register_all (ID ball) [bob_call; cy_call] (run ball_created empty_db)
       = (map Ok ids
          ++ repeat (Err ErrSoldOut)
               (length [bob_call; cy_call] - length ids), st')
       /\ Z.of_nat (length ids) = 1
       /\ available (ID ball) st' = Some 0
       /\ active_count (ID ball) (tickets st') = 1.
Proof.
  split; [reflexivity|].
  apply (@C2_no_overbooking ann_reserved "ball" 1 ball
           (run ball_created empty_db) [bob_call; cy_call]).
  - reflexivity.
  - repeat constructor; simpl; intuition discriminate.
  - repeat constructor; simpl; intuition discriminate.
  - intros c t [<-|[<-|[]]] [<-|[]]; discriminate.
  - simpl; lia.
Defined.

(** C2 as stated fails when a ticket of another event already carries one of
    the keys: the gala has Ann's ticket with key [k-ann]; the ball is created
    with capacity 1 and one registration for it arrives with that key.  It
    returns [ErrAlreadyRegistered]: no call succeeds, none is sold out, and
    the ball keeps its free spot. *)
Lemma C2_key_taken_by_other_event :
  CreateEvent "ball" 1 (run ann_reserved empty_db)
  = (Ok ball, run ball_created empty_db)
  /\ register_all (ID ball) [bob_reuses_key] (run ball_created empty_db)
     = ([Err ErrAlreadyRegistered], run ball_created empty_db)
  /\ available (ID ball) (run ball_created empty_db) = Some 1
  /\ active_count (ID ball) (tickets (run ball_created empty_db)) = 0.
Proof. repeat split; reflexivity. Qed.

(** C4. A registration that finds a free unit but collides with an existing
    ticket, on the idempotency key or on (event, holder): step 1 consumes the
    unit inside the transaction, the INSERT fails, the transaction is rolled
    back, [ErrAlreadyRegistered] is returned and the store, so the available
    capacity and the tickets, is exactly the store before the call. *)
Theorem C4_duplicate_rolls_back ops eventID email key now a t :
  available eventID (run ops empty_db) = Some a ->
  0 < a ->
  In t (tickets (run ops empty_db)) ->
  tk_idempotency_key t = key
  \/ (tk_event_id t = eventID /\ tk_user_email t = email) ->
  exists tx1,
    decrement_available eventID (run ops empty_db) = Some (tx1, 1)
    /\ available eventID tx1 = Some (a - 1)
    /\ tickets tx1 = tickets (run ops empty_db)
    /\ insert_ticket eventID email key now tx1 = None
    /\ RegisterForEvent eventID email key now (run ops empty_db)
       = (Err ErrAlreadyRegistered, run ops empty_db).
Proof.
  intros Ha Hpos Ht Hdup; pose proof (Inv_history ops) as HI.
  set (st := run ops empty_db) in *.
  assert (Hv : violates_unique eventID email key (tickets st) = true)
    by (apply violates_unique_true; eauto).
  rewrite decrement_available_eq.
  eexists; split; [|split; [|split; [|split]]].
  - apply f_equal, f_equal2; [reflexivity|].
    unfold available in Ha.
    destruct (find_event eventID st) as [e|] eqn:Hf; [|discriminate].
    inversion Ha; subst a.
    apply (decrement_count_one _ _ (inv_event_ids HI) Hf Hpos).
  - unfold available, find_event; cbn [events].
    apply available_after_decrement; assumption.
  - reflexivity.
  - unfold insert_ticket; cbn [tickets]; rewrite Hv; reflexivity.
  - rewrite register_conflict by assumption.
    unfold conflict_error; rewrite (available_has_spot _ _ Ha).
    apply Z.ltb_lt in Hpos; rewrite Hpos; reflexivity.
Qed.

Lemma C4_duplicate_rolls_back_witness :
  available 2 (run ball_created empty_db) = Some 1
  /\ In (ann_ticket reserved) (tickets (run ball_created empty_db))
  /\ exists tx1,
       decrement_available 2 (run ball_created empty_db) = Some (tx1, 1)
       /\ available 2 tx1 = Some (1 - 1)
       /\ tickets tx1 = tickets (run ball_created empty_db)
       /\ insert_ticket 2 "bob@example.com" "k-ann" 5 tx1 = None
       /\ RegisterForEvent 2 "bob@example.com" "k-ann" 5
            (run ball_created empty_db)
          = (Err ErrAlreadyRegistered, run ball_created empty_db).
Proof.
  split; [reflexivity|]; split; [vm_compute; auto|].
  apply (@C4_duplicate_rolls_back ball_created 2 "bob@example.com" "k-ann" 5
           1 (ann_ticket reserved)).
  - reflexivity.
  - lia.
  - vm_compute; auto.
  - left; reflexivity.
Defined.

(** C5, as the code has it.  When a registration succeeds, the store holds
    exactly one ticket with its key and exactly one for its (event, holder),
    and the event has one available spot less.  Every repetition of the call,
    at any later times, leaves that store unchanged and fails: with
    [ErrAlreadyRegistered] while the event still has a free spot, with
    [ErrSoldOut] when the first call took the last one. *)
Theorem C5_repeated_register ops eventID email key now id st1 nows :
  RegisterForEvent eventID email key now (run ops empty_db) = (Ok id, st1) ->
  count_rows (same_key key) (tickets st1) = 1
  /\ count_rows (same_holder eventID email) (tickets st1) = 1
  /\ length (tickets st1) = S (length (tickets (run ops empty_db)))
  /\ (exists a, available eventID (run ops empty_db) = Some a
                /\ available eventID st1 = Some (a - 1))
  /\ register_all eventID
       (map (fun n => ({| Email := email; IdempotencyKey := key |}, n)) nows)
       st1
     = (map (fun _ => Err (conflict_error eventID st1)) nows, st1).
Proof.
  intros Hreg; pose proof (Inv_history ops) as HI.
  set (st := run ops empty_db) in *.
  pose proof (Inv_RegisterForEvent eventID email key now HI) as HI1.
  rewrite Hreg in HI1; cbn [snd] in HI1.
  destruct (register_ok_inv _ _ _ _ HI Hreg) as (Hspot & Hv & -> & ->).
  assert (Hnone : forall t, In t (tickets st) ->
            same_key key t = false /\ same_holder eventID email t = false).
  { intros t Ht; apply orb_false_iff.
    destruct (same_key key t || same_holder eventID email t) eqn:E;
      [|reflexivity].
    assert (violates_unique eventID email key (tickets st) = true)
      by (unfold violates_unique; apply existsb_exists; eauto).
    congruence. }
  split; [|split; [|split; [|split]]].
  - unfold registered; cbn [tickets].
    rewrite count_rows_app, count_rows_none by (intros; apply Hnone; auto).
    rewrite count_rows_cons; unfold same_key at 1.
    cbn [tk_idempotency_key]; rewrite String.eqb_refl; reflexivity.
  - unfold registered; cbn [tickets].
    rewrite count_rows_app, count_rows_none by (intros; apply Hnone; auto).
    rewrite count_rows_cons; unfold same_holder at 1.
    cbn [tk_event_id tk_user_email].
    rewrite Z.eqb_refl, String.eqb_refl; reflexivity.
  - unfold registered; cbn [tickets]; rewrite length_app; simpl; lia.
  - destruct (has_spot_available _ _ Hspot) as (a & Ha & Hpos).
    exists a; split; [assumption|].
    apply available_registered; assumption.
  - induction nows as [|n nows IH]; [reflexivity|].
    cbn [map register_all Email IdempotencyKey].
    rewrite register_conflict, IH
      by (assumption || apply registered_violates).
    reflexivity.
Qed.

Lemma C5_repeated_register_witness :
  RegisterForEvent 1 "ann@example.com" "k-ann" 0 gala_store
  = (Ok 1, run ann_reserved empty_db)
  /\ count_rows (same_key "k-ann") (tickets (run ann_reserved empty_db)) = 1
  /\ register_all 1
       (map (fun n => ({| Email := "ann@example.com";
                          IdempotencyKey := "k-ann" |}, n)) [1; 2])
       (run ann_reserved empty_db)
     = (map (fun _ => Err (conflict_error 1 (run ann_reserved empty_db)))
            [1; 2],
        run ann_reserved empty_db).
Proof.
  split; [reflexivity|].
  destruct (@C5_repeated_register [OpCreateEvent "gala" 1] 1
              "ann@example.com" "k-ann" 0 1
              (run ann_reserved empty_db) [1; 2])
    as (H1 & _ & _ & _ & H5); [reflexivity|].
  split; assumption.
Defined.

(** C5 as stated fails on the error of the repetition: Ann takes the only
    spot of the gala; the same call again returns [ErrSoldOut], not
    [ErrAlreadyRegistered], because the capacity check runs first. *)
Lemma C5_repeat_reports_sold_out :
  RegisterForEvent 1 "ann@example.com" "k-ann" 0 gala_store
  = (Ok 1, run ann_reserved empty_db)
  /\ RegisterForEvent 1 "ann@example.com" "k-ann" 1
       (run ann_reserved empty_db)
     = (Err ErrSoldOut, run ann_reserved empty_db).
Proof. split; reflexivity. Qed.

(** C10, as the code has it.  In every reachable store no two ticket rows,
    whatever their status, share (event, holder).  For any ticket of the
    store, cancelled ones included, a further registration by its holder for
    its event fails whatever the key and creates nothing: with
    [ErrAlreadyRegistered] while the event has a free spot, with
    [ErrSoldOut] when it has none. *)
Theorem C10_one_row_per_holder ops t key now :
  In t (tickets (run ops empty_db)) ->
  NoDup (map holder_of (tickets (run ops empty_db)))
  /\ RegisterForEvent (tk_event_id t) (tk_user_email t) key now
       (run ops empty_db)
     = (Err (conflict_error (tk_event_id t) (run ops empty_db)),
        run ops empty_db).
Proof.
  intros Ht; pose proof (Inv_history ops) as HI.
  split; [apply (inv_holders HI)|].
  apply register_conflict; [assumption|].
  apply violates_unique_true; exists t; auto.
Qed.

Lemma C10_one_row_per_holder_witness :
  In (ann_ticket cancelled) (tickets (run bob_took_over empty_db))
  /\ RegisterForEvent 1 "ann@example.com" "k-new" 302
       (run bob_took_over empty_db)
     = (Err (conflict_error 1 (run bob_took_over empty_db)),
        run bob_took_over empty_db).
Proof.
  split; [vm_compute; auto|].
  apply (@C10_one_row_per_holder bob_took_over (ann_ticket cancelled)
           "k-new" 302).
  vm_compute; auto.
Defined.

(** C10 as stated fails on the error: Ann's hold on the only spot of the
    gala lapses and is released, Bob takes the spot, and Ann's new
    registration with a fresh key returns [ErrSoldOut], not
    [ErrAlreadyRegistered]. *)
Lemma C10_released_holder_sold_out :
  status_of 1 (run bob_took_over empty_db) = Some cancelled
  /\ RegisterForEvent 1 "ann@example.com" "k-new" 302
       (run bob_took_over empty_db)
     = (Err ErrSoldOut, run bob_took_over empty_db).
Proof. split; reflexivity. Qed.

(** * Further properties of the database layer *)

Unset Implicit Arguments.

Lemma find_snoc {A : Type} (k : A -> bool) (l : list A) (x : A) :
  find k (l ++ [x])
  = match find k l with
    | Some y => Some y
    | None => if k x then Some x else None
    end.
Proof.
  induction l as [|a l IH]; [reflexivity|].
  cbn [app find]; destruct (k a); auto.
Qed.

Lemma find_ticket_fresh st id :
  Forall (fun t => tk_id t <= tickets_seq st) (tickets st) ->
  tickets_seq st < id -> find_ticket id st = None.
Proof.
  intros H Hid; unfold find_ticket.
  destruct (find _ _) as [t|] eqn:Hf; [|reflexivity].
  apply find_some in Hf; destruct Hf as [Ht Heq]; apply Z.eqb_eq in Heq.
  rewrite Forall_forall in H; specialize (H t Ht); lia.
Qed.

Lemma register_lookup eventID email key now st id st1 :
  Inv st ->
  RegisterForEvent eventID email key now st = (Ok id, st1) ->
  find_ticket id st = None
  /\ find_ticket id st1 = Some (new_ticket id eventID email key now)
  /\ (forall id', id' <> id -> find_ticket id' st1 = find_ticket id' st)
  /\ (forall e', e' <> eventID -> find_event e' st1 = find_event e' st).
Proof.
  intros HI Hreg.
  destruct (register_ok_inv _ _ _ _ HI Hreg) as (_ & _ & -> & ->).
  assert (Hnone : find_ticket (tickets_seq st + 1) st = None)
    by (apply find_ticket_fresh; [apply (inv_ticket_seq HI)|lia]).
  split; [exact Hnone|]; split; [|split].
  - unfold find_ticket in *; unfold registered; cbn [tickets].
    rewrite find_snoc, Hnone; cbn [tk_id]; rewrite Z.eqb_refl; reflexivity.
  - intros id' Hne; unfold find_ticket, registered; cbn [tickets].
    rewrite find_snoc; cbn [tk_id].
    destruct (find _ (tickets st)); [reflexivity|].
    destruct (tickets_seq st + 1 =? id') eqn:E; [|reflexivity].
    apply Z.eqb_eq in E; congruence.
  - intros e' Hne; unfold find_event, registered; cbn [events].
    rewrite find_update_rows by reflexivity.
    destruct (find _ (events st)) as [e|] eqn:Hf; [|reflexivity].
    apply find_some in Hf; destruct Hf as [_ Hid]; apply Z.eqb_eq in Hid.
    cbn [option_map]; unfold decrement_where.
    destruct (ID e =? eventID) eqn:E; [|reflexivity].
    apply Z.eqb_eq in E; congruence.
Qed.

(** X1. Registering for an event that is not in the store is reported as
    sold out, and the store is unchanged. *)
Theorem X1_register_unknown_event eventID email key now st :
  find_event eventID st = None ->
  RegisterForEvent eventID email key now st = (Err ErrSoldOut, st).
Proof.
  intros Hf; rewrite RegisterForEvent_eq.
  rewrite count_rows_none; [reflexivity|].
  intros e He; unfold decrement_where, find_event in *.
  rewrite (find_none _ _ Hf e He); reflexivity.
Qed.

Lemma X1_register_unknown_event_witness :
  find_event 7 gala_store = None
  /\ RegisterForEvent 7 "ann@example.com" "k-ann" 0 gala_store
     = (Err ErrSoldOut, gala_store).
Proof.
  split; [reflexivity|].
  apply (X1_register_unknown_event 7 "ann@example.com" "k-ann" 0 gala_store).
  reflexivity.
Defined.

(** X2. A successful registration returns an id that no ticket had before;
    looking that id up afterwards gives the reserved ticket of this event,
    holder and key, created now and expiring five minutes later.  Every
    other ticket and every other event is as it was. *)
Theorem X2_register_then_lookup ops eventID email key now id st1 :
  RegisterForEvent eventID email key now (run ops empty_db) = (Ok id, st1) ->
  find_ticket id (run ops empty_db) = None
  /\ find_ticket id st1 = Some (new_ticket id eventID email key now)
  /\ (forall id', id' <> id ->
        find_ticket id' st1 = find_ticket id' (run ops empty_db))
  /\ (forall e', e' <> eventID ->
        find_event e' st1 = find_event e' (run ops empty_db)).
Proof.
  intros Hreg; apply register_lookup; [apply Inv_history|assumption].
Qed.

Lemma X2_register_then_lookup_witness :
  RegisterForEvent 1 "ann@example.com" "k-ann" 0 gala_store
  = (Ok 1, run ann_reserved empty_db)
  /\ find_ticket 1 (run ann_reserved empty_db)
     = Some (new_ticket 1 1 "ann@example.com" "k-ann" 0).
Proof.
  split; [reflexivity|].
  apply (X2_register_then_lookup [OpCreateEvent "gala" 1] 1
           "ann@example.com" "k-ann" 0 1 (run ann_reserved empty_db)).
  reflexivity.
Defined.

Lemma confirm_where_iff ticketID email now t :
  confirm_where ticketID email now t = true <->
  tk_id t = ticketID /\ tk_user_email t = email
  /\ tk_status t = reserved /\ now < tk_expires_at t.
Proof.
  unfold confirm_where.
  rewrite !andb_true_iff, Z.eqb_eq, String.eqb_eq, Status_eqb_eq, Z.ltb_lt.
  tauto.
Qed.

(** [ConfirmReservation] on a store with unique ticket ids, by the row the
    id names. *)
Lemma ConfirmReservation_found ticketID email now st t :
  NoDup (map tk_id (tickets st)) ->
  find_ticket ticketID st = Some t ->
  ConfirmReservation ticketID email now st
  = if confirm_where ticketID email now t
    then (Ok tt, fst (update_tickets (confirm_where ticketID email now)
                                     (set_status confirmed) st))
    else (Err ErrConfirm, st).
Proof.
  intros Hnd Hf; destruct (find_ticket_In _ _ Hf) as [Ht Hid].
  destruct (confirm_where ticketID email now t) eqn:Hw.
  - unfold ConfirmReservation, update_tickets; cbn [fst].
    pose proof (count_rows_pos _ t (tickets st) Ht Hw) as Hpos.
    destruct (count_rows _ _ =? 0) eqn:E; [|reflexivity].
    apply Z.eqb_eq in E; lia.
  - apply ConfirmReservation_none; intros t' Ht'.
    destruct (confirm_where ticketID email now t') eqn:Hw'; [|reflexivity].
    pose proof (proj1 (confirm_where_iff _ _ _ _) Hw') as (Hid' & _).
    assert (t' = t)
      by (apply (NoDup_map_inj tk_id (tickets st)); congruence).
    congruence.
Qed.

(** X3. A hold that has just been created can be confirmed exactly by its
    holder and exactly before its deadline, five minutes after the
    registration.  The confirmation turns the ticket to confirmed and leaves
    the events table, so the capacity, as it is. *)
Theorem X3_confirm_fresh_hold ops eventID email key t0 id st1 m now :
  RegisterForEvent eventID email key t0 (run ops empty_db) = (Ok id, st1) ->
  (fst (ConfirmReservation id m now st1) = Ok tt
   <-> m = email /\ now < t0 + 300)
  /\ (m = email -> now < t0 + 300 ->
      status_of id (snd (ConfirmReservation id m now st1)) = Some confirmed
      /\ events (snd (ConfirmReservation id m now st1)) = events st1).
Proof.
  intros Hreg; pose proof (Inv_history ops) as HI.
  pose proof (Inv_RegisterForEvent eventID email key t0 HI) as HI1.
  rewrite Hreg in HI1; cbn [snd] in HI1.
  assert (Hf : find_ticket id st1
               = Some (new_ticket id eventID email key t0))
    by (apply (@register_lookup _ _ _ _ _ _ _ HI Hreg)).
  rewrite (ConfirmReservation_found _ m now _ _ (inv_ticket_ids HI1) Hf).
  assert (Hw : confirm_where id m now (new_ticket id eventID email key t0)
               = true <-> m = email /\ now < t0 + 300).
  { rewrite confirm_where_iff; cbn [new_ticket tk_id tk_user_email
      tk_status tk_expires_at]; intuition congruence. }
  destruct (confirm_where id m now _) eqn:E; cbn [fst snd].
  - split; [tauto|]; intros _ _; split; [|reflexivity].
    unfold status_of, find_ticket, update_tickets; cbn [fst tickets].
    unfold find_ticket in Hf; rewrite find_update_rows, Hf by reflexivity.
    cbn [option_map]; rewrite E; reflexivity.
  - split; [split; [discriminate|]|].
    + intros H; apply Hw in H; discriminate.
    + intros H1 H2; assert (false = true) by (apply Hw; auto).
      discriminate.
Qed.

Lemma X3_confirm_fresh_hold_witness :
  RegisterForEvent 1 "ann@example.com" "k-ann" 0 gala_store
  = (Ok 1, run ann_reserved empty_db)
  /\ (fst (ConfirmReservation 1 "bob@example.com" 10
             (run ann_reserved empty_db)) = Ok tt
      <-> "bob@example.com" = "ann@example.com" /\ 10 < 0 + 300).
Proof.
  split; [reflexivity|].
  apply (X3_confirm_fresh_hold [OpCreateEvent "gala" 1] 1 "ann@example.com"
           "k-ann" 0 1 (run ann_reserved empty_db) "bob@example.com" 10).
  reflexivity.
Defined.

(** ** The life of a ticket *)

Lemma status_of_tickets id st st' :
  tickets st' = tickets st -> status_of id st' = status_of id st.
Proof. unfold status_of, find_ticket; intros ->; reflexivity. Qed.

(** One operation moves the status of a ticket along the state machine or
    leaves it: the ticket stays in the store, and only a reserved one
    changes, to confirmed or to cancelled. *)
Lemma status_step o st id s :
  Inv st -> status_of id st = Some s ->
  status_of id (step o st) = Some s
  \/ (s = reserved
      /\ (status_of id (step o st) = Some confirmed
          \/ status_of id (step o st) = Some cancelled)).
Proof.
  intros HI Hs; destruct o as [name tot|e m k now|t m now|now]; cbn [step].
  - left; rewrite <- Hs; apply status_of_tickets.
    rewrite CreateEvent_eq; destruct (0 <=? tot); reflexivity.
  - left; rewrite RegisterForEvent_eq.
    destruct (count_rows _ _ =? 0); [exact Hs|].
    destruct (violates_unique _ _ _ _); [exact Hs|]; cbn [snd].
    unfold status_of, find_ticket, registered in *; cbn [tickets].
    rewrite find_snoc.
    destruct (find _ (tickets st)); [exact Hs|discriminate].
  - assert (Hsnd : tickets (snd (ConfirmReservation t m now st))
                   = update_rows (confirm_where t m now)
                                 (set_status confirmed) (tickets st)).
    { unfold ConfirmReservation, update_tickets.
      destruct (count_rows _ _ =? 0); reflexivity. }
    unfold status_of, find_ticket in *; rewrite Hsnd.
    rewrite find_update_rows by reflexivity.
    destruct (find _ (tickets st)) as [tk|]; [|discriminate].
    cbn [option_map] in *; injection Hs as Hs.
    destruct (confirm_where t m now tk) eqn:Hw; [|left; congruence].
    apply confirm_where_iff in Hw; destruct Hw as (_ & _ & Hr & _).
    right; split; [congruence|left; reflexivity].
  - rewrite ReclaimExpiredSeats_eq
      by (apply (inv_ticket_ids HI) || apply (inv_check HI)).
    cbn [snd]; unfold status_of in Hs.
    destruct (find_ticket id st) as [tk|] eqn:Hf; [|discriminate].
    cbn [option_map] in Hs; injection Hs as Hs.
    rewrite (@status_reclaim_result now id st tk Hf).
    destruct (lapsed now tk) eqn:Hl; [|left; congruence].
    right; split; [|right; reflexivity].
    rewrite <- Hs; apply (@lapsed_reserved now tk Hl).
Qed.

Lemma status_run more : forall st id s,
  Inv st -> status_of id st = Some s ->
  status_of id (run more st) = Some s
  \/ (s = reserved
      /\ (status_of id (run more st) = Some confirmed
          \/ status_of id (run more st) = Some cancelled)).
Proof.
  induction more as [|o more IH]; intros st id s HI Hs; [left; exact Hs|].
  cbn [run fold_left]; fold (run more (step o st)).
  pose proof (@Inv_step o st HI) as HI'.
  destruct (status_step o st id s HI Hs) as [H|(-> & [H|H])].
  - apply IH; assumption.
  - right; split; [reflexivity|].
    destruct (IH _ _ _ HI' H) as [H'|(H' & _)]; [auto|discriminate].
  - right; split; [reflexivity|].
    destruct (IH _ _ _ HI' H) as [H'|(H' & _)]; [auto|discriminate].
Qed.

(** X4. Tickets follow the state machine reserved -> confirmed | cancelled
    and never leave the store: whatever operations follow, a ticket that is
    confirmed stays confirmed, one that is cancelled stays cancelled, and a
    reserved one is still reserved or has become confirmed or cancelled. *)
Theorem X4_ticket_state_machine ops more id s :
  status_of id (run ops empty_db) = Some s ->
  status_of id (run more (run ops empty_db)) = Some s
  \/ (s = reserved
      /\ (status_of id (run more (run ops empty_db)) = Some confirmed
          \/ status_of id (run more (run ops empty_db)) = Some cancelled)).
Proof. intros Hs; apply status_run; [apply Inv_history|exact Hs]. Qed.

Lemma X4_ticket_state_machine_witness :
  status_of 1 (run ann_confirmed empty_db) = Some confirmed
  /\ (status_of 1 (run [OpReclaim 300; OpConfirm 1 "bob@example.com" 301]
                     (run ann_confirmed empty_db)) = Some confirmed
      \/ (confirmed = reserved
          /\ (status_of 1 (run [OpReclaim 300;
                                OpConfirm 1 "bob@example.com" 301]
                             (run ann_confirmed empty_db)) = Some confirmed
              \/ status_of 1 (run [OpReclaim 300;
                                   OpConfirm 1 "bob@example.com" 301]
                                (run ann_confirmed empty_db))
                 = Some cancelled))).
Proof.
  split; [reflexivity|].
  apply (X4_ticket_state_machine ann_confirmed
           [OpReclaim 300; OpConfirm 1 "bob@example.com" 301] 1 confirmed).
  reflexivity.
Defined.

(** ** Append-only tables *)

Lemma identity_step o st :
  Inv st ->
  exists new_events new_tickets,
    map event_identity (events (step o st))
    = map event_identity (events st) ++ new_events
    /\ map ticket_identity (tickets (step o st))
       = map ticket_identity (tickets st) ++ new_tickets.
Proof.
  intros HI; destruct o as [name tot|e m k now|t m now|now]; cbn [step].
  - rewrite CreateEvent_eq; destruct (0 <=? tot); cbn [snd].
    + exists [event_identity (created_event name tot st)], [].
      unfold created; cbn [events tickets].
      rewrite map_app, app_nil_r; split; reflexivity.
    + exists [], []; rewrite !app_nil_r; split; reflexivity.
  - rewrite RegisterForEvent_eq.
    destruct (count_rows _ _ =? 0);
      [exists [], []; rewrite !app_nil_r; split; reflexivity|].
    destruct (violates_unique _ _ _ _);
      [exists [], []; rewrite !app_nil_r; split; reflexivity|].
    cbn [snd]; unfold registered; cbn [events tickets].
    exists [], [ticket_identity
                  (new_ticket (tickets_seq st + 1) e m k now)].
    rewrite app_nil_r, map_app, map_update_rows by reflexivity.
    split; reflexivity.
  - exists [], []; rewrite !app_nil_r.
    unfold ConfirmReservation, update_tickets.
    destruct (count_rows _ _ =? 0); cbn [snd events tickets];
      rewrite map_update_rows by reflexivity; split; reflexivity.
  - exists [], []; rewrite !app_nil_r.
    rewrite ReclaimExpiredSeats_eq
      by (apply (inv_ticket_ids HI) || apply (inv_check HI)).
    cbn [snd]; unfold reclaim_result; cbn [events tickets].
    rewrite map_update_rows, map_map by reflexivity; split; reflexivity.
Qed.

Lemma identity_run more : forall st,
  Inv st ->
  exists new_events new_tickets,
    map event_identity (events (run more st))
    = map event_identity (events st) ++ new_events
    /\ map ticket_identity (tickets (run more st))
       = map ticket_identity (tickets st) ++ new_tickets.
Proof.
  induction more as [|o more IH]; intros st HI.
  - exists [], []; rewrite !app_nil_r; split; reflexivity.
  - cbn [run fold_left]; fold (run more (step o st)).
    destruct (identity_step o st HI) as (ne & nt & He & Ht).
    destruct (IH _ (@Inv_step o st HI)) as (ne' & nt' & He' & Ht').
    exists (ne ++ ne'), (nt ++ nt').
    rewrite He', Ht', He, Ht, !app_assoc; split; reflexivity.
Qed.

(** X5. The two tables only grow, and what identifies a row never changes:
    whatever operations follow, the events of the store are still there in
    the same order with the same id, name and total capacity, and so are the
    tickets with the same id, event, holder, idempotency key, creation time
    and deadline; new rows come after them. *)
Theorem X5_tables_append_only ops more :
  exists new_events new_tickets,
    map event_identity (events (run more (run ops empty_db)))
    = map event_identity (events (run ops empty_db)) ++ new_events
    /\ map ticket_identity (tickets (run more (run ops empty_db)))
       = map ticket_identity (tickets (run ops empty_db)) ++ new_tickets.
Proof. apply identity_run, Inv_history. Qed.

(** ** Reclaim cycles *)

Lemma lapsed_mono now' now t :
  now' <= now -> lapsed now' t = true -> lapsed now t = true.
Proof.
  unfold lapsed; intros Hle H; apply andb_true_iff in H.
  destruct H as [Hs He]; rewrite Hs; cbn [andb].
  apply Z.leb_le in He; apply Z.leb_le; lia.
Qed.

(** X6. Right after a reclaim cycle, a further cycle at the same or an
    earlier time finds no candidate: it reports zero and leaves the store as
    it is. *)
Theorem X6_reclaim_settles ops now now' :
  now' <= now ->
  ReclaimExpiredSeats now' (snd (ReclaimExpiredSeats now (run ops empty_db)))
  = (Ok 0, snd (ReclaimExpiredSeats now (run ops empty_db))).
Proof.
  intros Hle; pose proof (Inv_history ops) as HI.
  rewrite (ReclaimExpiredSeats_eq now)
    by (apply (inv_ticket_ids HI) || apply (inv_check HI)).
  cbn [snd]; pose proof (@Inv_reclaim_result now _ HI) as HI2.
  rewrite ReclaimExpiredSeats_eq
    by (apply (inv_ticket_ids HI2) || apply (inv_check HI2)).
  assert (Hset : forall t,
            In t (tickets (reclaim_result now (run ops empty_db))) ->
            lapsed now' t = false).
  { intros t Ht; destruct (lapsed now' t) eqn:Hl; [|reflexivity].
    rewrite <- (@reclaim_result_settled now _ t Ht).
    symmetry; apply (lapsed_mono now' now); assumption. }
  rewrite (@reclaim_result_fixed now' _ Hset), count_rows_none
    by assumption.
  reflexivity.
Qed.

Lemma X6_reclaim_settles_witness :
  300 <= 400
  /\ ReclaimExpiredSeats 300
       (snd (ReclaimExpiredSeats 400 (run ann_reserved empty_db)))
     = (Ok 0, snd (ReclaimExpiredSeats 400 (run ann_reserved empty_db))).
Proof.
  split; [lia|]; apply (X6_reclaim_settles ann_reserved 400 300); lia.
Defined.

(** ** Capacity comes back *)




(** ** Ids *)

Lemma StronglySorted_snoc l a :
  StronglySorted Z.lt l -> Forall (fun x => x < a) l ->
  StronglySorted Z.lt (l ++ [a]).
Proof.
  induction 1 as [|x l Hs IH Hx]; intros Hall; cbn [app].
  - repeat constructor.
  - inversion Hall; subst; constructor; [apply IH; assumption|].
    apply Forall_app; split; [assumption|repeat constructor; assumption].
Qed.

Lemma ids_ordered_snoc ids seq :
  0 <= seq -> ids_ordered ids seq -> ids_ordered (ids ++ [seq + 1]) (seq + 1).
Proof.
  intros Hseq [Hs Hb]; split.
  - apply StronglySorted_snoc; [assumption|].
    eapply Forall_impl; [|exact Hb]; cbv beta; intros; lia.
  - apply Forall_app; split.
    + eapply Forall_impl; [|exact Hb]; cbv beta; intros; lia.
    + repeat constructor; lia.
Qed.

Lemma ordered_step o st :
  Inv st ->
  0 <= events_seq st /\ 0 <= tickets_seq st
  /\ ids_ordered (map ID (events st)) (events_seq st)
  /\ ids_ordered (map tk_id (tickets st)) (tickets_seq st) ->
  0 <= events_seq (step o st) /\ 0 <= tickets_seq (step o st)
  /\ ids_ordered (map ID (events (step o st))) (events_seq (step o st))
  /\ ids_ordered (map tk_id (tickets (step o st))) (tickets_seq (step o st)).
Proof.
  intros HI (He & Ht & Hoe & Hot).
  destruct o as [name tot|e m k now|t m now|now]; cbn [step].
  - rewrite CreateEvent_eq; destruct (0 <=? tot); cbn [snd]; auto.
    unfold created; cbn [events tickets events_seq tickets_seq].
    rewrite map_app; cbn [map created_event ID].
    repeat split; try lia; try apply Hot.
    + apply ids_ordered_snoc; assumption.
    + apply ids_ordered_snoc; assumption.
  - rewrite RegisterForEvent_eq.
    destruct (count_rows _ _ =? 0); [auto|].
    destruct (violates_unique _ _ _ _); [auto|]; cbn [snd].
    unfold registered; cbn [events tickets events_seq tickets_seq].
    rewrite map_app, map_update_rows by reflexivity; cbn [map tk_id].
    repeat split; try lia; try apply Hoe.
    + apply ids_ordered_snoc; assumption.
    + apply ids_ordered_snoc; assumption.
  - unfold ConfirmReservation, update_tickets.
    destruct (count_rows _ _ =? 0);
      cbn [snd events tickets events_seq tickets_seq];
      rewrite map_update_rows by reflexivity; auto.
  - rewrite ReclaimExpiredSeats_eq
      by (apply (inv_ticket_ids HI) || apply (inv_check HI)).
    cbn [snd]; unfold reclaim_result.
    cbn [events tickets events_seq tickets_seq].
    rewrite map_update_rows, map_map by reflexivity; auto.
Qed.

Lemma ordered_history ops :
  0 <= events_seq (run ops empty_db) /\ 0 <= tickets_seq (run ops empty_db)
  /\ ids_ordered (map ID (events (run ops empty_db)))
                 (events_seq (run ops empty_db))
  /\ ids_ordered (map tk_id (tickets (run ops empty_db)))
                 (tickets_seq (run ops empty_db)).
Proof.
  induction ops as [|o ops IH] using rev_ind.
  - cbn; repeat split; try lia; constructor.
  - rewrite run_snoc; apply ordered_step; [apply Inv_history|exact IH].
Qed.

(** X10. [ListEvents] returns the events with strictly increasing, positive
    ids, and the tickets table is ordered in the same way: with the tables
    append-only, that is the order of creation, and a new row always gets an
    id above every id in use. *)
Theorem X10_ids_in_creation_order ops :
  StronglySorted Z.lt (map ID (ListEvents (run ops empty_db)))
  /\ Forall (fun i => 0 < i <= events_seq (run ops empty_db))
            (map ID (ListEvents (run ops empty_db)))
  /\ StronglySorted Z.lt (map tk_id (tickets (run ops empty_db)))
  /\ Forall (fun i => 0 < i <= tickets_seq (run ops empty_db))
            (map tk_id (tickets (run ops empty_db))).
Proof.
  destruct (ordered_history ops) as (_ & _ & [H1 H2] & [H3 H4]).
  unfold ListEvents; auto.
Qed.

(** ** The concurrency test *)

Lemma distinct_NoDup l : distinct l = true -> NoDup l.
Proof.
  induction l as [|x l IH]; cbn [distinct]; intros H; [constructor|].
  apply andb_true_iff in H; destruct H as [Hx Hl].
  constructor; [|apply IH; assumption].
  intros Hin; apply negb_true_iff in Hx.
  assert (existsb (String.eqb x) l = true); [|congruence].
  apply existsb_exists; exists x; split; [assumption|apply String.eqb_refl].
Qed.

Lemma count_rows_repeat {A : Type} (p : A -> bool) (x : A) (n : nat) :
  count_rows p (repeat x n) = if p x then Z.of_nat n else 0.
Proof.
  induction n as [|n IH]; [destruct (p x); reflexivity|].
  cbn [repeat]; rewrite count_rows_cons, IH; destruct (p x); lia.
Qed.

Lemma count_rows_all {A : Type} (p : A -> bool) (l : list A) :
  Forall (fun a => p a = true) l -> count_rows p l = Z.of_nat (length l).
Proof.
  induction 1 as [|a l Ha _ IH]; [reflexivity|].
  rewrite count_rows_cons, IH, Ha; cbn [length]; lia.
Qed.

(** What a burst of registrations for one event does to the tables: the
    events keep their ids, and one ticket of that event is appended per
    successful call. *)
Lemma register_all_rows eventID calls : forall st,
  exists news,
    tickets (snd (register_all eventID calls st)) = tickets st ++ news
    /\ Forall (fun t => tk_event_id t = eventID) news
    /\ Z.of_nat (length news)
       = count_rows is_ok (fst (register_all eventID calls st))
    /\ map ID (events (snd (register_all eventID calls st)))
       = map ID (events st).
Proof.
  induction calls as [|[r now] calls IH]; intros st.
  - exists []; cbn [register_all fst snd]; rewrite app_nil_r.
    repeat split; constructor.
  - cbn [register_all]; rewrite RegisterForEvent_eq.
    destruct (count_rows _ _ =? 0); [|destruct (violates_unique _ _ _ _)].
    + destruct (IH st) as (news & H1 & H2 & H3 & H4).
      destruct (register_all eventID calls st) as [ress st2].
      cbn [fst snd] in *; exists news; rewrite count_rows_cons.
      cbn [is_ok]; auto.
    + destruct (IH st) as (news & H1 & H2 & H3 & H4).
      destruct (register_all eventID calls st) as [ress st2].
      cbn [fst snd] in *; exists news; rewrite count_rows_cons.
      cbn [is_ok]; auto.
    + destruct (IH (registered eventID (Email r) (IdempotencyKey r) now st))
        as (news & H1 & H2 & H3 & H4).
      destruct (register_all eventID calls _) as [ress st2].
      cbn [fst snd] in *; rewrite count_rows_cons; cbn [is_ok].
      exists (new_ticket (tickets_seq st + 1) eventID (Email r)
                (IdempotencyKey r) now :: news).
      unfold registered in H1, H4; cbn [tickets events] in H1, H4.
      rewrite map_update_rows in H4 by reflexivity.
      rewrite H1, <- app_assoc; cbn [app length].
      split; [reflexivity|]; split; [|split; [lia|assumption]].
      constructor; [reflexivity|assumption].
Qed.

(** X9. [TestOptimisticConcurrency] passes whatever the order in which the
    store serialises the hundred registrations of its goroutines: five
    succeed, ninety-five are sold out, none fails otherwise, the one event
    ends with no available spot and the event has five ticket rows. *)
Theorem X9_concurrency_test_passes calls :
  Permutation (map fst calls) (map gopher (seq 0 100)) ->
  TestOptimisticConcurrency calls = true.
Proof.
  intros HP; unfold TestOptimisticConcurrency.
  set (ev0 := {| ID := 1; Name := "The Big GopherCon"; TotalSpots := 5;
                 AvailableSpots := 5 |}).
  set (st0 := {| events := [ev0]; tickets := []; events_seq := 1;
                 tickets_seq := 0 |}).
  change (CreateEvent "The Big GopherCon" 5 empty_db) with (Ok ev0, st0).
  cbv iota beta; change (ID ev0) with 1.
  pose proof (Inv_history [OpCreateEvent "The Big GopherCon" 5]) as HI.
  change (run _ empty_db) with st0 in HI.
  assert (Hlen : length calls = 100%nat).
  { rewrite <- (length_map fst calls), (Permutation_length HP), length_map.
    apply length_seq. }
  assert (Hm : NoDup (map (fun c => Email (fst c)) calls)).
  { rewrite <- (map_map fst Email).
    apply (Permutation_NoDup (Permutation_sym (Permutation_map Email HP))).
    apply distinct_NoDup; vm_compute; reflexivity. }
  assert (Hk : NoDup (map (fun c => IdempotencyKey (fst c)) calls)).
  { rewrite <- (map_map fst IdempotencyKey).
    apply (Permutation_NoDup
             (Permutation_sym (Permutation_map IdempotencyKey HP))).
    apply distinct_NoDup; vm_compute; reflexivity. }
  destruct (@register_all_burst 1 calls st0 5 HI eq_refl Hm Hk)
    as (ids & st' & Hrun & Hids & HI' & Hav & _); [reflexivity|].
  destruct (register_all_rows 1 calls st0) as (news & Htk & Hev & Hnews & He).
  rewrite Hrun in *; cbn [fst snd] in *.
  rewrite Hlen in Hids; change (Nat.min (Z.to_nat 5) 100) with 5%nat in Hids.
  rewrite Hlen, Hids in *; change (100 - 5)%nat with 95%nat in *.
  rewrite !count_rows_app, !count_rows_repeat in *; cbn [is_ok is_sold_out
    negb andb] in *.
  rewrite (@count_rows_all _ is_ok) in *
    by (apply Forall_forall; intros r Hr; apply in_map_iff in Hr;
        destruct Hr as (i & <- & _); reflexivity).
  rewrite (@count_rows_none _ is_sold_out),
    (@count_rows_none _ (fun r => negb (is_ok r) && negb (is_sold_out r)))
    by (intros r Hr; apply in_map_iff in Hr; destruct Hr as (i & <- & _);
        reflexivity).
  rewrite length_map, Hids in *.
  unfold ListEvents; cbn [map ID st0 ev0 events] in He.
  destruct (events st') as [|e' [|e2 evs]] eqn:Hevs; try discriminate.
  injection He as He; unfold available, find_event in Hav.
  rewrite Hevs in Hav; cbn [find] in Hav; rewrite He in Hav.
  cbn [Z.eqb Pos.eqb option_map] in Hav; injection Hav as Hav.
  rewrite Hav, Htk; cbn [st0 tickets app].
  rewrite (@count_rows_all _ (fun t => tk_event_id t =? 1))
    by (eapply Forall_impl; [|exact Hev]; cbv beta; intros t ->;
        reflexivity).
  rewrite Hnews; reflexivity.
Qed.

Lemma X9_concurrency_test_passes_witness :
  Permutation (map fst (map (fun i => (gopher i, 0)) (rev (seq 0 100))))
              (map gopher (seq 0 100))
  /\ TestOptimisticConcurrency
       (map (fun i => (gopher i, 0)) (rev (seq 0 100))) = true.
Proof.
  assert (H : Permutation
                (map fst (map (fun i => (gopher i, 0)) (rev (seq 0 100))))
                (map gopher (seq 0 100))).
  { rewrite map_map; cbn [fst]; apply Permutation_map.
    apply Permutation_sym, Permutation_rev. }
  split; [exact H|].
  apply (X9_concurrency_test_passes _ H).
Defined.

(** * The handlers and the middlewares *)

Lemma ConfirmReservation_err ticketID email now st e st' :
  ConfirmReservation ticketID email now st = (Err e, st') ->
  e = ErrConfirm /\ st' = st.
Proof.
  unfold ConfirmReservation, update_tickets.
  destruct (count_rows _ _ =? 0) eqn:Hc; [|discriminate].
  apply Z.eqb_eq in Hc; intros H; injection H as <- <-.
  split; [reflexivity|].
  rewrite update_rows_none; [destruct st; reflexivity|].
  intros t Ht; apply (count_rows_zero _ t _ Hc Ht).
Qed.

Lemma HandleRegister_cases ParseInt method idStr body now st
  resp st' :
  HandleRegister ParseInt method idStr body now st = (resp, st') ->
  (StatusCode resp = StatusCreated
   /\ exists eventID req id,
        method = "POST" /\ ParseInt idStr = Some eventID /\ body = Some req
        /\ Email req <> "" /\ IdempotencyKey req <> ""
        /\ RegisterForEvent eventID (Email req) (IdempotencyKey req) now st
           = (Ok id, st')
        /\ Payload resp
           = TicketBody "Seat reserved! Please confirm within 5 minutes." id)
  \/ (In (StatusCode resp)
         [StatusBadRequest; StatusMethodNotAllowed; StatusConflict]
      /\ st' = st).
Proof.
  unfold HandleRegister.
  destruct (String.eqb method "POST") eqn:Hm; cbn [negb];
    [|intros H; injection H as <- <-; right; cbn; auto].
  destruct (String.eqb idStr "");
    [intros H; injection H as <- <-; right; cbn; auto|].
  destruct (ParseInt idStr) as [eventID|];
    [|intros H; injection H as <- <-; right; cbn; auto].
  destruct body as [req|];
    [|intros H; injection H as <- <-; right; cbn; auto].
  destruct (String.eqb (Email req) "") eqn:He; cbn [orb];
    [intros H; injection H as <- <-; right; cbn; auto|].
  destruct (String.eqb (IdempotencyKey req) "") eqn:Hk;
    [intros H; injection H as <- <-; right; cbn; auto|].
  rewrite RegisterForEvent_eq.
  destruct (count_rows _ _ =? 0) eqn:Hc;
    [intros H; injection H as <- <-; right; cbn; auto|].
  destruct (violates_unique _ _ _ _) eqn:Hv;
    [intros H; injection H as <- <-; right; cbn; auto|].
  intros H; injection H as <- <-; left; split; [reflexivity|].
  exists eventID, req, (tickets_seq st + 1).
  apply String.eqb_eq in Hm; apply String.eqb_neq in He, Hk.
  rewrite RegisterForEvent_eq, Hc, Hv; repeat split; auto.
Qed.

(** A well-formed request gets the answer of the database. *)
Lemma HandleRegister_valid ParseInt idStr eventID req now st :
  idStr <> "" -> ParseInt idStr = Some eventID ->
  Email req <> "" -> IdempotencyKey req <> "" ->
  HandleRegister ParseInt "POST" idStr (Some req) now st
  = match RegisterForEvent eventID (Email req) (IdempotencyKey req) now st
    with
    | (Ok id, st') =>
        (SendJSON StatusCreated
           (TicketBody "Seat reserved! Please confirm within 5 minutes." id),
         st')
    | (Err e, _) => (SendJSON StatusConflict (ErrorOf e), st)
    end.
Proof.
  intros Hid Hp He Hk; unfold HandleRegister.
  apply String.eqb_neq in Hid, He, Hk.
  rewrite String.eqb_refl, Hid, Hp, He, Hk; cbn [negb orb].
  rewrite RegisterForEvent_eq.
  destruct (count_rows _ _ =? 0); [reflexivity|].
  destruct (violates_unique _ _ _ _); reflexivity.
Qed.

(** X11. [HandleRegister] answers 201 exactly when the request is well
    formed (method POST, a path id that parses, a body that decodes, e-mail
    and idempotency key not empty) and the database registered it.  A
    well-formed request that the database registers gets 201 with the ticket
    id the database returned, and the store is the one the registration
    left; a well-formed request that the database refuses gets 409 with the
    error of the database, and the store is unchanged.  Conversely an answer
    201 comes from such a registration, and every other answer is 400, 405
    or 409 and leaves the store untouched: the handler never answers 500 on
    a store that executes its statements. *)
Theorem X11_HandleRegister_outcomes ParseInt method idStr body now st :
  (forall eventID req,
     method = "POST" -> idStr <> "" -> ParseInt idStr = Some eventID ->
     body = Some req -> Email req <> "" -> IdempotencyKey req <> "" ->
     (forall id st',
        RegisterForEvent eventID (Email req) (IdempotencyKey req) now st
        = (Ok id, st') ->
        HandleRegister ParseInt method idStr body now st
        = (SendJSON StatusCreated
             (TicketBody "Seat reserved! Please confirm within 5 minutes."
                         id), st'))
     /\ (forall e st',
           RegisterForEvent eventID (Email req) (IdempotencyKey req) now st
           = (Err e, st') ->
           HandleRegister ParseInt method idStr body now st
           = (SendJSON StatusConflict (ErrorOf e), st)))
  /\ (forall resp st',
        HandleRegister ParseInt method idStr body now st = (resp, st') ->
        (StatusCode resp = StatusCreated
         /\ idStr <> ""
         /\ exists eventID req id,
              method = "POST" /\ ParseInt idStr = Some eventID
              /\ body = Some req
              /\ Email req <> "" /\ IdempotencyKey req <> ""
              /\ RegisterForEvent eventID (Email req) (IdempotencyKey req)
                   now st = (Ok id, st')
              /\ Payload resp
                 = TicketBody
                     "Seat reserved! Please confirm within 5 minutes." id)
        \/ (In (StatusCode resp)
               [StatusBadRequest; StatusMethodNotAllowed; StatusConflict]
            /\ st' = st)).
Proof.
  split.
  - intros eventID req -> Hid Hp -> He Hk.
    rewrite (HandleRegister_valid ParseInt idStr eventID req now st
               Hid Hp He Hk).
    split; intros x st' ->; reflexivity.
  - intros resp st' H.
    destruct (HandleRegister_cases _ _ _ _ _ _ _ _ H) as [(Hc & Hex)|Hr];
      [|right; exact Hr].
    left; split; [exact Hc|]; split; [|exact Hex].
    intros ->; destruct Hex as (eventID & req & id & -> & _).
    unfold HandleRegister in H; cbn [String.eqb negb] in H.
    injection H as <- _; discriminate.
Qed.

Lemma X11_HandleRegister_outcomes_witness :
  RegisterForEvent 1 (Email ann_request) (IdempotencyKey ann_request) 0
    gala_store
  = (Ok 1, run ann_reserved empty_db)
  /\ HandleRegister (fun _ => Some 1) "POST" "1" (Some ann_request) 0
       gala_store
     = (SendJSON StatusCreated
          (TicketBody "Seat reserved! Please confirm within 5 minutes." 1),
        run ann_reserved empty_db).
Proof.
  split; [reflexivity|].
  destruct (X11_HandleRegister_outcomes (fun _ => Some 1) "POST" "1"
              (Some ann_request) 0 gala_store) as [Hvalid _].
  destruct (Hvalid 1 ann_request) as [Hok _];
    [reflexivity | discriminate | reflexivity | reflexivity
    | vm_compute; discriminate | vm_compute; discriminate | ].
  apply Hok; reflexivity.
Defined.

Lemma HandleConfirm_cases ParseInt method idStr body now st
  resp st' :
  HandleConfirm ParseInt method idStr body now st = (resp, st') ->
  events st' = events st
  /\ ((StatusCode resp = StatusOK
       /\ exists ticketID email,
            method = "POST" /\ ParseInt idStr = Some ticketID
            /\ body = Some email /\ email <> ""
            /\ ConfirmReservation ticketID email now st = (Ok tt, st'))
      \/ (In (StatusCode resp)
             [StatusBadRequest; StatusMethodNotAllowed; StatusConflict]
          /\ st' = st)).
Proof.
  unfold HandleConfirm.
  destruct (String.eqb method "POST") eqn:Hm; cbn [negb];
    [|intros H; injection H as <- <-; split; [|right]; cbn; auto].
  destruct (String.eqb idStr "");
    [intros H; injection H as <- <-; split; [|right]; cbn; auto|].
  destruct (ParseInt idStr) as [ticketID|];
    [|intros H; injection H as <- <-; split; [|right]; cbn; auto].
  destruct body as [email|];
    [|intros H; injection H as <- <-; split; [|right]; cbn; auto].
  destruct (String.eqb email "") eqn:He;
    [intros H; injection H as <- <-; split; [|right]; cbn; auto|].
  destruct (ConfirmReservation ticketID email now st) as [[[]|e] st1] eqn:Hc;
    intros H; injection H as <- <-.
  - split.
    + unfold ConfirmReservation, update_tickets in Hc.
      destruct (count_rows _ _ =? 0); [discriminate|].
      injection Hc as <-; reflexivity.
    + left; split; [reflexivity|]; exists ticketID, email.
      apply String.eqb_eq in Hm; apply String.eqb_neq in He; auto.
  - destruct (ConfirmReservation_err _ _ _ _ _ _ Hc) as [_ ->].
    split; [reflexivity|right; cbn; auto].
Qed.

(** A well-formed request gets the answer of the database. *)
Lemma HandleConfirm_valid ParseInt idStr ticketID email now st :
  idStr <> "" -> ParseInt idStr = Some ticketID -> email <> "" ->
  HandleConfirm ParseInt "POST" idStr (Some email) now st
  = match ConfirmReservation ticketID email now st with
    | (Ok _, st') =>
        (SendJSON StatusOK (MessageBody "Ticket successfully confirmed"),
         st')
    | (Err e, _) => (SendJSON StatusConflict (ErrorOf e), st)
    end.
Proof.
  intros Hid Hp He; unfold HandleConfirm.
  apply String.eqb_neq in Hid, He.
  rewrite String.eqb_refl, Hid, Hp, He; cbn [negb].
  destruct (ConfirmReservation ticketID email now st) as [[[]|e] st1] eqn:Hc;
    [reflexivity|].
  destruct (ConfirmReservation_err _ _ _ _ _ _ Hc) as [_ ->]; reflexivity.
Qed.

(** X12. [HandleConfirm] answers 200 exactly when the request is well formed
    (method POST, a path id that parses, a body that decodes, e-mail not
    empty) and the database confirmed the ticket for the e-mail of the body.
    A well-formed request that the database confirms gets 200 and the store
    is the one the confirmation left; a well-formed request that the
    database refuses gets 409 with the error of the database, and the store
    is unchanged.  Conversely an answer 200 comes from such a confirmation,
    and every other answer is 400, 405 or 409 and leaves the store
    untouched.  In no case does the handler change the events table. *)
Theorem X12_HandleConfirm_outcomes ParseInt method idStr body now st :
  (forall ticketID email,
     method = "POST" -> idStr <> "" -> ParseInt idStr = Some ticketID ->
     body = Some email -> email <> "" ->
     (forall st',
        ConfirmReservation ticketID email now st = (Ok tt, st') ->
        HandleConfirm ParseInt method idStr body now st
        = (SendJSON StatusOK (MessageBody "Ticket successfully confirmed"),
           st'))
     /\ (forall e st',
           ConfirmReservation ticketID email now st = (Err e, st') ->
           HandleConfirm ParseInt method idStr body now st
           = (SendJSON StatusConflict (ErrorOf e), st)))
  /\ (forall resp st',
        HandleConfirm ParseInt method idStr body now st = (resp, st') ->
        events st' = events st
        /\ ((StatusCode resp = StatusOK
             /\ idStr <> ""
             /\ exists ticketID email,
                  method = "POST" /\ ParseInt idStr = Some ticketID
                  /\ body = Some email /\ email <> ""
                  /\ ConfirmReservation ticketID email now st = (Ok tt, st'))
            \/ (In (StatusCode resp)
                   [StatusBadRequest; StatusMethodNotAllowed; StatusConflict]
                /\ st' = st))).
Proof.
  split.
  - intros ticketID email -> Hid Hp -> He.
    rewrite (HandleConfirm_valid ParseInt idStr ticketID email now st
               Hid Hp He).
    split; [intros st' ->|intros e st' ->]; reflexivity.
  - intros resp st' H.
    destruct (HandleConfirm_cases _ _ _ _ _ _ _ _ H) as [Hev [(Hc & Hex)|Hr]];
      (split; [exact Hev|]); [|right; exact Hr].
    left; split; [exact Hc|]; split; [|exact Hex].
    intros ->; destruct Hex as (ticketID & email & -> & _).
    unfold HandleConfirm in H; cbn [String.eqb negb] in H.
    injection H as <- _; discriminate.
Qed.

Lemma X12_HandleConfirm_outcomes_witness :
  ConfirmReservation 1 "ann@example.com" 10 (run ann_reserved empty_db)
  = (Ok tt, run ann_confirmed empty_db)
  /\ HandleConfirm (fun _ => Some 1) "POST" "1" (Some "ann@example.com") 10
       (run ann_reserved empty_db)
     = (SendJSON StatusOK (MessageBody "Ticket successfully confirmed"),
        run ann_confirmed empty_db).
Proof.
  split; [reflexivity|].
  destruct (X12_HandleConfirm_outcomes (fun _ => Some 1) "POST" "1"
              (Some "ann@example.com") 10 (run ann_reserved empty_db))
    as [Hvalid _].
  destruct (Hvalid 1 "ann@example.com") as [Hok _];
    [reflexivity | discriminate | reflexivity | reflexivity | discriminate
    | ].
  apply Hok; reflexivity.
Defined.

(** The RBAC wrapper lets a request through exactly for the required role
    and for [admin]. *)
Lemma RBACMiddleware_cases {S : Type} requiredRole
  (next : S -> Response * S) role s :
  RBACMiddleware requiredRole next role s
  = if String.eqb role "" then
      (SendJSON StatusUnauthorized
         (ErrorBody "Unauthorized: Missing X-Role header"), s)
    else if String.eqb role requiredRole || String.eqb role "admin"
    then next s
    else (SendJSON StatusForbidden
            (ErrorBody "Forbidden: Insufficient privileges"), s).
Proof.
  unfold RBACMiddleware; destruct (String.eqb role ""); [reflexivity|].
  destruct (String.eqb role requiredRole), (String.eqb role "admin");
    reflexivity.
Qed.

(** X13. On the three protected routes of [main] (create an event: role
    organizer; register and confirm: role user) a request whose [X-Role] is
    neither the role of the route nor [admin] never reaches the handler: the
    store is unchanged and the answer is 401 when the header is missing or
    empty, 403 otherwise. *)
Theorem X13_routes_require_role ParseInt req role now st required :
  required_role req = Some required ->
  role <> required -> role <> "admin" ->
  route ParseInt req role now st
  = (if String.eqb role ""
     then SendJSON StatusUnauthorized
            (ErrorBody "Unauthorized: Missing X-Role header")
     else SendJSON StatusForbidden
            (ErrorBody "Forbidden: Insufficient privileges"), st).
Proof.
  intros Hreq Hr Ha; apply String.eqb_neq in Ha.
  destruct req as [body|head|idStr body|idStr body]; cbn [required_role] in Hreq;
    try discriminate; injection Hreq as <-; apply String.eqb_neq in Hr;
    cbn [route]; rewrite RBACMiddleware_cases, Hr, Ha;
    destruct (String.eqb role ""); reflexivity.
Qed.

Lemma X13_routes_require_role_witness :
  required_role (PostEvents (Some {| req_Name := "gala";
                                     req_TotalSpots := 5 |}))
  = Some "organizer"
  /\ route (fun _ => None)
       (PostEvents (Some {| req_Name := "gala"; req_TotalSpots := 5 |}))
       "user" 0 empty_db
     = (SendJSON StatusForbidden
          (ErrorBody "Forbidden: Insufficient privileges"), empty_db).
Proof.
  split; [reflexivity|].
  apply (X13_routes_require_role (fun _ => None)
           (PostEvents (Some {| req_Name := "gala"; req_TotalSpots := 5 |}))
           "user" 0 empty_db "organizer"); [reflexivity| |]; discriminate.
Defined.

Lemma route_effect ParseInt req role now st :
  snd (route ParseInt req role now st) = st
  \/ ((exists required,
         required_role req = Some required
         /\ (role = required \/ role = "admin"))
      /\ (StatusCode (fst (route ParseInt req role now st)) = StatusOK
          \/ StatusCode (fst (route ParseInt req role now st))
             = StatusCreated)).
Proof.
  assert (Hauth : forall required,
            String.eqb role required || String.eqb role "admin" = true ->
            role = required \/ role = "admin").
  { intros required H; apply orb_true_iff in H.
    rewrite !String.eqb_eq in H; exact H. }
  destruct req as [body|head|idStr body|idStr body]; cbn [route].
  - rewrite RBACMiddleware_cases.
    destruct (String.eqb role ""); [left; reflexivity|].
    destruct (String.eqb role "organizer" || String.eqb role "admin")
      eqn:Ha; [|left; reflexivity].
    unfold HandleCreateEvent; cbn [String.eqb Ascii.eqb Bool.eqb negb andb].
    destruct body as [r|]; [|left; reflexivity].
    destruct (String.eqb (req_Name r) "" || (req_TotalSpots r <=? 0));
      [left; reflexivity|].
    rewrite CreateEvent_eq; destruct (0 <=? req_TotalSpots r);
      [|left; reflexivity].
    right; split; [|right; reflexivity].
    exists "organizer"; split; [reflexivity|apply Hauth; exact Ha].
  - left; unfold HandleListEvents; destruct head; reflexivity.
  - rewrite RBACMiddleware_cases.
    destruct (String.eqb role ""); [left; reflexivity|].
    destruct (String.eqb role "user" || String.eqb role "admin") eqn:Ha;
      [|left; reflexivity].
    destruct (HandleRegister ParseInt "POST" idStr body now st)
      as [resp st'] eqn:Hh.
    destruct (HandleRegister_cases _ _ _ _ _ _ _ _ Hh)
      as [(Hc & _)|(_ & ->)]; [|left; reflexivity].
    right; split; [|right; exact Hc].
    exists "user"; split; [reflexivity|apply Hauth; exact Ha].
  - rewrite RBACMiddleware_cases.
    destruct (String.eqb role ""); [left; reflexivity|].
    destruct (String.eqb role "user" || String.eqb role "admin") eqn:Ha;
      [|left; reflexivity].
    destruct (HandleConfirm ParseInt "POST" idStr body now st)
      as [resp st'] eqn:Hh.
    destruct (HandleConfirm_cases _ _ _ _ _ _ _ _ Hh)
      as (_ & [(Hc & _)|(_ & ->)]); [|left; reflexivity].
    right; split; [|left; exact Hc].
    exists "user"; split; [reflexivity|apply Hauth; exact Ha].
Qed.

(** X14. Whatever the request, the role, the address and the times, the
    server changes the database only when the rate limiter admitted the
    request, the route is a protected one and the role is the role of the
    route or [admin], and the answer is 200 or 201.  An answer 429, 401,
    403, 400, 405, 409 or 500 never comes with a change. *)
Theorem X14_store_changes_only_when_allowed ParseInt req role ip clock now
  l st :
  snd (snd (ServeHTTP ParseInt req role ip clock now l st)) = st
  \/ (fst (allow ip clock l) = true
      /\ (exists required,
            required_role req = Some required
            /\ (role = required \/ role = "admin"))
      /\ (StatusCode (fst (ServeHTTP ParseInt req role ip clock now l st))
          = StatusOK
          \/ StatusCode (fst (ServeHTTP ParseInt req role ip clock now l st))
             = StatusCreated)).
Proof.
  unfold ServeHTTP, RateLimitMiddleware.
  destruct (allow ip clock l) as [[|] l']; [|left; reflexivity].
  pose proof (route_effect ParseInt req role now st) as H.
  destruct (route ParseInt req role now st) as [resp st'].
  cbn [fst snd] in *; destruct H as [H|[H1 H2]]; auto.
Qed.

(** ** The rate limiter *)

Lemma find_filter_keep {A : Type} (k q : A -> bool) (l : list A) :
  (forall a, k a = true -> q a = true) ->
  find k (filter q l) = find k l.
Proof.
  intros H; induction l as [|a l IH]; [reflexivity|].
  cbn [filter find]; destruct (k a) eqn:Hk.
  - rewrite (H a Hk); cbn [find]; rewrite Hk; reflexivity.
  - destruct (q a); [cbn [find]; rewrite Hk|]; exact IH.
Qed.

Lemma visits_bump_same ip m : visits ip (bump ip m) = visits ip m + 1.
Proof.
  unfold visits at 1, bump; cbn [find fst snd].
  rewrite String.eqb_refl; reflexivity.
Qed.

Lemma visits_bump_other ip ip' m :
  ip' <> ip -> visits ip (bump ip' m) = visits ip m.
Proof.
  intros Hne; unfold visits, bump; cbn [find fst].
  apply String.eqb_neq in Hne; rewrite Hne.
  rewrite find_filter_keep; [reflexivity|].
  intros kv Hk; apply String.eqb_eq in Hk; rewrite Hk.
  rewrite String.eqb_sym, Hne; reflexivity.
Qed.

Lemma allow_in_window ip clock l :
  clock - lastReset l <= 10 * Second ->
  allow ip clock l
  = if 5 <=? visits ip (visitors l) then (false, l)
    else (true, {| visitors := bump ip (visitors l);
                   lastReset := lastReset l |}).
Proof.
  intros H; unfold allow, window_reset.
  replace (10 * Second <? clock - lastReset l) with false
    by (symmetry; apply Z.ltb_ge; exact H).
  reflexivity.
Qed.

Lemma allow_all_window ip reqs : forall l v,
  (forall r, In r reqs -> snd r - lastReset l <= 10 * Second) ->
  visits ip (visitors l) = v -> 0 <= v <= 5 ->
  admitted_from ip reqs (fst (allow_all reqs l))
  = Z.min (5 - v) (requests_from ip reqs).
Proof.
  induction reqs as [|[ip' clock] reqs IH]; intros l v Hw Hv Hb.
  - change (admitted_from ip [] (fst (allow_all [] l))) with 0.
    change (requests_from ip []) with 0; lia.
  - cbn [allow_all].
    rewrite allow_in_window by (apply (Hw (ip', clock)); left; reflexivity).
    unfold requests_from; rewrite count_rows_cons; cbn [fst].
    fold (requests_from ip reqs).
    destruct (String.eqb ip' ip) eqn:Hip.
    + apply String.eqb_eq in Hip; subst ip'; rewrite Hv.
      destruct (5 <=? v) eqn:Hfull.
      * apply Z.leb_le in Hfull.
        specialize (IH l v (fun r Hr => Hw r (or_intror Hr)) Hv Hb).
        destruct (allow_all reqs l) as [oks l2]; cbn [fst] in *.
        unfold admitted_from in *; cbn [combine].
        rewrite count_rows_cons; cbn [fst snd]; rewrite andb_false_r, IH.
        pose proof (count_rows_nonneg
                      (fun r : string * Z => String.eqb (fst r) ip) reqs).
        unfold requests_from in *; lia.
      * apply Z.leb_gt in Hfull.
        specialize (IH {| visitors := bump ip (visitors l);
                          lastReset := lastReset l |} (v + 1)
                       (fun r Hr => Hw r (or_intror Hr))).
        cbn [visitors lastReset] in IH.
        rewrite visits_bump_same, Hv in IH.
        specialize (IH eq_refl ltac:(lia)).
        destruct (allow_all reqs _) as [oks l2]; cbn [fst] in *.
        unfold admitted_from in *; cbn [combine].
        rewrite count_rows_cons; cbn [fst snd].
        rewrite String.eqb_refl, IH; cbn [andb].
        pose proof (count_rows_nonneg
                      (fun r : string * Z => String.eqb (fst r) ip) reqs).
        unfold requests_from in *; lia.
    + assert (Hne : ip' <> ip) by (apply String.eqb_neq; exact Hip).
      destruct (5 <=? visits ip' (visitors l)).
      * specialize (IH l v (fun r Hr => Hw r (or_intror Hr)) Hv Hb).
        destruct (allow_all reqs l) as [oks l2]; cbn [fst] in *.
        unfold admitted_from in *; cbn [combine].
        rewrite count_rows_cons; cbn [fst snd]; rewrite Hip, IH.
        cbn [andb]; lia.
      * specialize (IH {| visitors := bump ip' (visitors l);
                          lastReset := lastReset l |} v
                       (fun r Hr => Hw r (or_intror Hr))).
        cbn [visitors lastReset] in IH.
        rewrite (visits_bump_other ip ip' _ Hne) in IH.
        specialize (IH Hv Hb).
        destruct (allow_all reqs _) as [oks l2]; cbn [fst] in *.
        unfold admitted_from in *; cbn [combine].
        rewrite count_rows_cons; cbn [fst snd]; rewrite Hip, IH.
        cbn [andb]; lia.
Qed.

(** X15. From the moment the limiter is set up and for the ten seconds
    that follow, it admits the first five requests of each address
    and rejects the rest, whatever requests of other addresses arrive in
    between: of [n] requests of an address, [min 5 n] are admitted. *)
Theorem X15_five_per_address_per_window t0 reqs ip :
  (forall r, In r reqs -> snd r - t0 <= 10 * Second) ->
  admitted_from ip reqs (fst (allow_all reqs (NewLimiter t0)))
  = Z.min 5 (requests_from ip reqs).
Proof.
  intros Hw.
  rewrite (allow_all_window ip reqs (NewLimiter t0) 0);
    [reflexivity|exact Hw|reflexivity|lia].
Qed.

Lemma X15_five_per_address_per_window_witness :
  (forall r, In r [("a", 1); ("b", 2); ("a", 3)] ->
             snd r - 0 <= 10 * Second)
  /\ admitted_from "a" [("a", 1); ("b", 2); ("a", 3)]
       (fst (allow_all [("a", 1); ("b", 2); ("a", 3)] (NewLimiter 0)))
     = Z.min 5 (requests_from "a" [("a", 1); ("b", 2); ("a", 3)]).
Proof.
  assert (H : forall r, In r [("a", 1); ("b", 2); ("a", 3)] ->
                        snd r - 0 <= 10 * Second)
    by (intros r [<-|[<-|[<-|[]]]]; vm_compute; discriminate).
  split; [exact H|].
  apply (X15_five_per_address_per_window 0 _ "a" H).
Defined.

(** X16. A request that arrives more than ten seconds after the last reset
    starts a new window for every address: it is admitted, and it and the
    requests of the next ten seconds are counted from zero, whatever the
    counters were. *)
Theorem X16_window_turns_over l ip0 clock0 reqs ip :
  10 * Second < clock0 - lastReset l ->
  (forall r, In r reqs -> snd r - clock0 <= 10 * Second) ->
  fst (allow ip0 clock0 l) = true
  /\ admitted_from ip ((ip0, clock0) :: reqs)
       (fst (allow_all ((ip0, clock0) :: reqs) l))
     = Z.min 5 (requests_from ip ((ip0, clock0) :: reqs)).
Proof.
  intros Hexp Hw.
  assert (Hreset : window_reset clock0 l = NewLimiter clock0).
  { unfold window_reset; apply Z.ltb_lt in Hexp; rewrite Hexp.
    reflexivity. }
  assert (Hsame : allow ip0 clock0 l = allow ip0 clock0 (NewLimiter clock0)).
  { unfold allow; rewrite Hreset; unfold window_reset.
    cbn [lastReset NewLimiter]; rewrite Z.sub_diag; reflexivity. }
  assert (Hin : clock0 - lastReset (NewLimiter clock0) <= 10 * Second).
  { cbn [lastReset NewLimiter]; rewrite Z.sub_diag; vm_compute.
    discriminate. }
  split; [rewrite Hsame, allow_in_window by exact Hin; reflexivity|].
  cbn [allow_all]; rewrite Hsame.
  change (let '(ok, l1) := allow ip0 clock0 (NewLimiter clock0) in
          let '(oks, l2) := allow_all reqs l1 in (ok :: oks, l2))
    with (allow_all ((ip0, clock0) :: reqs) (NewLimiter clock0)).
  rewrite (allow_all_window ip ((ip0, clock0) :: reqs)
             (NewLimiter clock0) 0); [reflexivity| |reflexivity|lia].
  intros r [<-|Hr]; [exact Hin|apply Hw; exact Hr].
Qed.

Lemma X16_window_turns_over_witness :
  10 * Second < 11000000000 - lastReset (NewLimiter 0)
  /\ fst (allow "a" 11000000000
            {| visitors := [("a", 5)]; lastReset := 0 |}) = true.
Proof.
  split; [reflexivity|].
  apply (X16_window_turns_over {| visitors := [("a", 5)]; lastReset := 0 |}
           "a" 11000000000 [] "a"); [reflexivity|].
  intros r [].
Defined.

(** ** The response wrapper *)

Lemma WriteHeader_written code rw :
  rw_wroteHeader rw = true -> WriteHeader code rw = rw.
Proof. unfold WriteHeader; intros ->; reflexivity. Qed.

(** X17. Of the status codes written through the response wrapper only the
    first takes effect: after any calls of [WriteHeader] on a fresh wrapper,
    [Status()] is the code of the first call. *)
Theorem X17_first_WriteHeader_wins code codes :
  fold_left (fun rw c => WriteHeader c rw) (code :: codes) wrapResponseWriter
  = {| rw_status := code; rw_wroteHeader := true |}.
Proof.
  cbn [fold_left]; unfold WriteHeader at 2; cbn [wrapResponseWriter
    rw_wroteHeader].
  generalize code; induction codes as [|c codes IH]; intros c0;
    [reflexivity|].
  cbn [fold_left]; rewrite WriteHeader_written by reflexivity; apply IH.
Qed.

(** * The first version of the service *)

Lemma EventApi_Inv_empty : EventApi.Inv EventApi.empty.
Proof. constructor; cbn; constructor. Qed.

Lemma EventApi_registered_count_events eventID evs evs' regs es es' rs :
  EventApi.registered_count eventID
    {| EventApi.events := evs; EventApi.registrations := regs;
       EventApi.events_seq := es; EventApi.registrations_seq := rs |}
  = EventApi.registered_count eventID
      {| EventApi.events := evs'; EventApi.registrations := regs;
         EventApi.events_seq := es'; EventApi.registrations_seq := rs |}.
Proof. reflexivity. Qed.

Lemma EventApi_Inv_CreateEvent e st :
  EventApi.Inv st -> EventApi.Inv (snd (EventApi.CreateEvent e st)).
Proof.
  intros [H1 H2 H3 H4]; unfold EventApi.CreateEvent; cbn [snd].
  assert (Hfresh : ~ In (EventApi.events_seq st + 1)
                        (map EventApi.ID (EventApi.events st))).
  { rewrite in_map_iff; intros (e0 & He1 & He2).
    rewrite Forall_forall in H2; specialize (H2 e0 He2); lia. }
  constructor; cbn [EventApi.events EventApi.registrations
    EventApi.events_seq].
  - rewrite map_app; apply NoDup_snoc; assumption.
  - apply Forall_app; split.
    + eapply Forall_impl; [|exact H2]; cbv beta; intros; lia.
    + repeat constructor; cbn [EventApi.ID]; lia.
  - eapply Forall_impl; [|exact H3]; cbv beta; intros r Hr.
    rewrite map_app; apply in_or_app; auto.
  - apply Forall_app; split.
    + eapply Forall_impl; [|exact H4]; cbv beta; intros e0 He0.
      exact He0.
    + repeat constructor; cbn [EventApi.ID EventApi.Capacity
        EventApi.AvailableSpots]; [|lia].
      unfold EventApi.registered_count; cbn [EventApi.registrations].
      rewrite count_rows_none; [lia|].
      intros r Hr; destruct (EventApi.EventID r =? _) eqn:E; [|reflexivity].
      apply Z.eqb_eq in E; rewrite Forall_forall in H3.
      specialize (H3 r Hr); rewrite E in H3; contradiction.
Qed.

Lemma EventApi_Inv_RegisterUser r now st :
  EventApi.Inv st -> EventApi.Inv (snd (EventApi.RegisterUser r now st)).
Proof.
  intros HI; pose proof HI as [H1 H2 H3 H4]; unfold EventApi.RegisterUser.
  destruct (count_rows _ _ =? 0) eqn:Hc; [exact HI|]; cbn [snd].
  apply Z.eqb_neq in Hc.
  destruct (count_rows_exists _ _ Hc) as (e0 & He0 & Hw0).
  unfold EventApi.decrement_where in Hw0; apply andb_true_iff in Hw0.
  destruct Hw0 as [Hid0 Hpos0]; apply Z.eqb_eq in Hid0.
  apply Z.ltb_lt in Hpos0.
  constructor; cbn [EventApi.events EventApi.registrations
    EventApi.events_seq].
  - rewrite map_update_rows by reflexivity; assumption.
  - rewrite Forall_forall in *; intros e' He'.
    apply In_update_rows in He'; destruct He' as (e & He & ->).
    specialize (H2 e He); destruct (EventApi.decrement_where _ e); auto.
  - rewrite map_update_rows by reflexivity.
    apply Forall_app; split; [assumption|].
    repeat constructor; cbn [EventApi.EventID].
    rewrite <- Hid0; apply in_map; assumption.
  - rewrite Forall_forall in *; intros e' He'.
    apply In_update_rows in He'; destruct He' as (e & He & ->).
    destruct (H4 e He) as [HL HM].
    unfold EventApi.registered_count in *; cbn [EventApi.registrations].
    destruct (EventApi.decrement_where (EventApi.EventID r) e) eqn:Hw;
      unfold EventApi.decrement_where in Hw.
    + apply andb_true_iff in Hw; destruct Hw as [Hid Hpos].
      apply Z.ltb_lt in Hpos.
      cbn [EventApi.decrement EventApi.ID EventApi.Capacity
        EventApi.AvailableSpots].
      rewrite count_rows_app, count_rows_cons; cbn [EventApi.EventID].
      rewrite Z.eqb_sym, Hid.
      change (count_rows _ []) with 0; lia.
    + rewrite count_rows_app, count_rows_cons; cbn [EventApi.EventID].
      change (count_rows _ []) with 0.
      destruct (EventApi.ID e =? EventApi.EventID r) eqn:Hid;
        cbn [andb] in Hw.
      * apply Z.eqb_eq in Hid.
        assert (e = e0)
          by (apply (NoDup_map_inj EventApi.ID (EventApi.events st));
              congruence).
        subst e0; apply Z.ltb_ge in Hw; lia.
      * rewrite Z.eqb_sym, Hid; lia.
Qed.

Lemma EventApi_Inv_run ops : forall st,
  EventApi.Inv st -> EventApi.Inv (EventApi.run ops st).
Proof.
  induction ops as [|o ops IH]; intros st HI; [exact HI|].
  cbn [EventApi.run fold_left]; apply IH.
  destruct o; cbn [EventApi.step];
    [apply EventApi_Inv_CreateEvent|apply EventApi_Inv_RegisterUser];
    exact HI.
Qed.

(** X18. In the first version too, after any history of [CreateEvent] and
    [RegisterUser] from the empty store, every event has
    [available_spots = capacity - (number of its registrations)], and the
    number of its registrations never exceeds its capacity (none at all for
    a capacity of zero or less, which [CreateEvent] accepts). *)
Theorem X18_EventApi_ledger ops e :
  In e (EventApi.events (EventApi.run ops EventApi.empty)) ->
  EventApi.AvailableSpots e
  = EventApi.Capacity e
    - EventApi.registered_count (EventApi.ID e)
        (EventApi.run ops EventApi.empty)
  /\ 0 <= EventApi.registered_count (EventApi.ID e)
            (EventApi.run ops EventApi.empty)
       <= Z.max 0 (EventApi.Capacity e).
Proof.
  intros He.
  pose proof (EventApi.inv_ledger
                (EventApi_Inv_run ops _ EventApi_Inv_empty)) as HL.
  rewrite Forall_forall in HL; destruct (HL e He) as [H1 H2].
  split; [exact H1|].
  pose proof (count_rows_nonneg
                (fun r => EventApi.EventID r =? EventApi.ID e)
                (EventApi.registrations (EventApi.run ops EventApi.empty))).
  unfold EventApi.registered_count in *; lia.
Qed.

Lemma X18_EventApi_ledger_witness :
  In (concert_row 1)
     (EventApi.events
        (EventApi.run [EventApi.OpCreateEvent concert;
                       EventApi.OpRegisterUser dan 5] EventApi.empty))
  /\ EventApi.AvailableSpots (concert_row 1)
     = EventApi.Capacity (concert_row 1)
       - EventApi.registered_count (EventApi.ID (concert_row 1))
           (EventApi.run [EventApi.OpCreateEvent concert;
                          EventApi.OpRegisterUser dan 5] EventApi.empty).
Proof.
  split; [vm_compute; auto|].
  apply (X18_EventApi_ledger
           [EventApi.OpCreateEvent concert; EventApi.OpRegisterUser dan 5]
           (concert_row 1)).
  vm_compute; auto.
Defined.

Lemma EventApi_decrement_count eventID st a :
  EventApi.Inv st -> EventApi.available eventID st = Some a ->
  (count_rows (EventApi.decrement_where eventID) (EventApi.events st) =? 0)
  = negb (0 <? a).
Proof.
  intros HI; unfold EventApi.available.
  destruct (find _ _) as [e|] eqn:Hf; [|discriminate].
  cbn [option_map]; intros Ha; injection Ha as <-.
  apply find_some in Hf; destruct Hf as [He Hid]; apply Z.eqb_eq in Hid.
  destruct (0 <? EventApi.AvailableSpots e) eqn:Hpos; cbn [negb].
  - apply Z.eqb_neq.
    assert (0 < count_rows (EventApi.decrement_where eventID)
                  (EventApi.events st)); [|lia].
    apply (count_rows_pos _ e); [assumption|].
    unfold EventApi.decrement_where.
    rewrite Hpos, Hid, Z.eqb_refl; reflexivity.
  - apply Z.eqb_eq, count_rows_none; intros e' He'.
    unfold EventApi.decrement_where.
    destruct (EventApi.ID e' =? eventID) eqn:Hid'; cbn [andb]; auto.
    apply Z.eqb_eq in Hid'.
    assert (e' = e)
      by (apply (NoDup_map_inj EventApi.ID (EventApi.events st));
          [apply (EventApi.inv_ids HI)| | |]; congruence).
    subst e'; assumption.
Qed.

Lemma EventApi_available_registered r now st a :
  EventApi.available (EventApi.EventID r) st = Some a -> 0 < a ->
  count_rows (EventApi.decrement_where (EventApi.EventID r))
             (EventApi.events st) <> 0 ->
  EventApi.available (EventApi.EventID r)
    (snd (EventApi.RegisterUser r now st)) = Some (a - 1).
Proof.
  intros Ha Hpos Hc; unfold EventApi.RegisterUser.
  apply Z.eqb_neq in Hc; rewrite Hc; cbn [snd].
  unfold EventApi.available in *; cbn [EventApi.events].
  rewrite find_update_rows by reflexivity.
  destruct (find _ (EventApi.events st)) as [e|] eqn:Hf; [|discriminate].
  apply find_some in Hf; destruct Hf as [_ Hid].
  cbn [option_map] in *; injection Ha as <-.
  unfold EventApi.decrement_where; rewrite Hid.
  apply Z.ltb_lt in Hpos; rewrite Hpos; reflexivity.
Qed.

Lemma EventApi_burst eventID calls : forall st a,
  EventApi.Inv st ->
  EventApi.available eventID st = Some a ->
  (forall c, In c calls -> EventApi.EventID (fst c) = eventID) ->
  exists st',
    EventApi.register_users calls st
    = (repeat (Ok tt) (Nat.min (Z.to_nat a) (length calls))
       ++ repeat (Err EventApi.ErrSoldOutOrMissing)
            (length calls - Nat.min (Z.to_nat a) (length calls)), st')
    /\ EventApi.available eventID st'
       = Some (a - Z.of_nat (Nat.min (Z.to_nat a) (length calls))).
Proof.
  induction calls as [|[r now] calls IH]; intros st a HI Ha Hev.
  - exists st; cbn [EventApi.register_users length repeat app Nat.sub].
    rewrite Nat.min_0_r; cbn [repeat app Z.of_nat]; rewrite Z.sub_0_r; auto.
  - pose proof (Hev (r, now) (or_introl eq_refl)) as Hr; cbn [fst] in Hr.
    pose proof (EventApi_Inv_RegisterUser r now st HI) as HI1.
    cbn [EventApi.register_users].
    pose proof (EventApi_decrement_count eventID st a HI Ha) as Hc.
    destruct (0 <? a) eqn:Hpos; cbn [negb] in Hc.
    + apply Z.ltb_lt in Hpos; apply Z.eqb_neq in Hc.
      rewrite <- Hr in Ha, Hc.
      pose proof (EventApi_available_registered r now st a Ha Hpos Hc) as Ha1.
      rewrite Hr in Ha1.
      destruct (IH _ (a - 1) HI1 Ha1 (fun c Hc' => Hev c (or_intror Hc')))
        as (st' & Hrun & Hav).
      unfold EventApi.RegisterUser in *.
      apply Z.eqb_neq in Hc; rewrite Hc in *; cbn [snd] in *.
      rewrite Hrun; exists st'.
      replace (Nat.min (Z.to_nat a) (length ((r, now) :: calls)))
        with (S (Nat.min (Z.to_nat (a - 1)) (length calls)))
        by (cbn [length]; lia).
      cbn [repeat app length Nat.sub]; split; [reflexivity|].
      rewrite Hav; apply f_equal; lia.
    + apply Z.ltb_ge in Hpos; rewrite <- Hr in Hc.
      unfold EventApi.RegisterUser; rewrite Hc.
      destruct (IH st a HI Ha (fun c Hc' => Hev c (or_intror Hc')))
        as (st' & Hrun & Hav).
      rewrite Hrun; exists st'.
      replace (Z.to_nat a) with 0%nat in * by lia.
      cbn [Nat.min repeat app length Nat.sub Z.of_nat] in *.
      rewrite Nat.sub_0_r in *; auto.
Qed.

(** X19. In the first version nothing ties a registration to its user:
    of [n] registrations for an event that has [a] available spots, the
    first [min a n] succeed and the others fail as sold out, whoever the
    users are, the same user repeated included. *)
Theorem X19_EventApi_burst ops e calls :
  In e (EventApi.events (EventApi.run ops EventApi.empty)) ->
  (forall c, In c calls -> EventApi.EventID (fst c) = EventApi.ID e) ->
  fst (EventApi.register_users calls (EventApi.run ops EventApi.empty))
  = repeat (Ok tt)
      (Nat.min (Z.to_nat (EventApi.AvailableSpots e)) (length calls))
    ++ repeat (Err EventApi.ErrSoldOutOrMissing)
         (length calls
          - Nat.min (Z.to_nat (EventApi.AvailableSpots e)) (length calls)).
Proof.
  intros He Hev.
  pose proof (EventApi_Inv_run ops _ EventApi_Inv_empty) as HI.
  assert (Ha : EventApi.available (EventApi.ID e)
                 (EventApi.run ops EventApi.empty)
               = Some (EventApi.AvailableSpots e)).
  { unfold EventApi.available.
    rewrite (find_some_unique (fun e0 => EventApi.ID e0 =? EventApi.ID e)
               EventApi.ID _ e); [reflexivity| | |assumption|].
    - apply (EventApi.inv_ids HI).
    - intros x y Hx Hy; apply Z.eqb_eq in Hx, Hy; congruence.
    - apply Z.eqb_refl. }
  destruct (EventApi_burst _ calls _ _ HI Ha Hev) as (st' & Hrun & _).
  rewrite Hrun; reflexivity.
Qed.

Lemma X19_EventApi_burst_witness :
  In (concert_row 2) (EventApi.events concert_created)
  /\ fst (EventApi.register_users [(dan, 1); (dan, 2); (dan, 3)]
            concert_created)
     = [Ok tt; Ok tt; Err EventApi.ErrSoldOutOrMissing].
Proof.
  split; [vm_compute; auto|].
  apply (X19_EventApi_burst [EventApi.OpCreateEvent concert] (concert_row 2)
           [(dan, 1); (dan, 2); (dan, 3)]).
  - vm_compute; auto.
  - intros c [<-|[<-|[<-|[]]]]; reflexivity.
Defined.

(** X20. The register handler of the first version answers 201 exactly
    when a registration row was added, and the row is for the event of the
    path, whatever event id the body carries; every other answer is 400, 405
    or 409 (sold out or no such event) and leaves the store untouched. *)
Theorem X20_EventApi_handler Atoi method idStr body now st code st' :
  EventApi.RegisterForEvent Atoi method idStr body now st = (code, st') ->
  (code = StatusCreated
   /\ exists eventID reg,
        Atoi idStr = Some eventID /\ body = Some reg
        /\ EventApi.registrations st'
           = EventApi.registrations st
             ++ [{| EventApi.RegID := EventApi.registrations_seq st + 1;
                    EventApi.EventID := eventID;
                    EventApi.UserName := EventApi.UserName reg;
                    EventApi.UserEmail := EventApi.UserEmail reg;
                    EventApi.RegisteredDate := now |}])
  \/ (In code [StatusBadRequest; StatusMethodNotAllowed; StatusConflict]
      /\ st' = st).
Proof.
  unfold EventApi.RegisterForEvent.
  destruct (String.eqb method "POST"); cbn [negb];
    [|intros H; injection H as <- <-; right; cbn; auto].
  destruct (Atoi idStr) as [eventID|];
    [|intros H; injection H as <- <-; right; cbn; auto].
  destruct body as [reg|];
    [|intros H; injection H as <- <-; right; cbn; auto].
  unfold EventApi.RegisterUser.
  destruct (count_rows _ _ =? 0).
  - intros H; injection H as <- <-; right; cbn; auto.
  - intros H; injection H as <- <-; left; split; [reflexivity|].
    exists eventID, reg; auto.
Qed.

Lemma X20_EventApi_handler_witness :
  EventApi.RegisterForEvent (fun _ => Some 1) "POST" "1"
    (Some (EventApi.with_event 9 dan)) 5 concert_created
  = (StatusCreated,
     EventApi.run [EventApi.OpCreateEvent concert;
                   EventApi.OpRegisterUser dan 5] EventApi.empty)
  /\ exists eventID reg,
       (fun _ : string => Some 1) "1" = Some eventID
       /\ Some (EventApi.with_event 9 dan) = Some reg
       /\ EventApi.registrations
            (EventApi.run [EventApi.OpCreateEvent concert;
                           EventApi.OpRegisterUser dan 5] EventApi.empty)
          = EventApi.registrations concert_created
            ++ [{| EventApi.RegID :=
                     EventApi.registrations_seq concert_created + 1;
                   EventApi.EventID := eventID;
                   EventApi.UserName := EventApi.UserName reg;
                   EventApi.UserEmail := EventApi.UserEmail reg;
                   EventApi.RegisteredDate := 5 |}].
Proof.
  split; [reflexivity|].
  destruct (X20_EventApi_handler (fun _ => Some 1) "POST" "1"
              (Some (EventApi.with_event 9 dan)) 5 concert_created
              StatusCreated
              (EventApi.run [EventApi.OpCreateEvent concert;
                             EventApi.OpRegisterUser dan 5] EventApi.empty)
              eq_refl) as [[_ H]|[H _]]; [exact H|].
  exfalso; cbn in H; intuition discriminate.
Defined.

(** * Reclamation *)









(** C3.  One candidate of a cycle whose increment fails.  Ann holds the only
    spot of the gala and lets the hold lapse; the cycle at time 300 selects
    her ticket.  When the update of the event returns an error, the loop
    goes on and the transaction is committed: the ticket is cancelled, the
    gala still has no spot available, and the cycle reports no reclaimed
    seat.  The two statements of the candidate are not one unit.  On a store
    that executes both statements the same cycle cancels the ticket and
    gives the spot back. *)
Theorem C3_failed_increment_is_committed :
  select_expired 300 (run ann_reserved empty_db)
  = [candidate (ann_ticket reserved)]
  /\ ReclaimExpiredSeatsWith (fun _ => EventUpdateFault) 300
       (run ann_reserved empty_db)
     = (Ok 0, {| events := [gala_sold_out];
                 tickets := [ann_ticket cancelled];
                 events_seq := 1; tickets_seq := 1 |})
  /\ active_count 1 [ann_ticket cancelled] = 0
  /\ ReclaimExpiredSeats 300 (run ann_reserved empty_db)
     = (Ok 1, {| events := [{| ID := 1; Name := "gala"; TotalSpots := 1;
                               AvailableSpots := 1 |}];
                 tickets := [ann_ticket cancelled];
                 events_seq := 1; tickets_seq := 1 |}).
Proof. repeat split; reflexivity. Qed.
